(** * Verification of the citizen request engine, the disaster service and the
    speech coordinator of ai-city-builder.

    Sources embedded:
    - src/src/scripts/ai/request-engine.ts (state machine [RequestEngine],
      speech coordinator [waitForSilence] / [flushWaiters])
    - src/src/scripts/sim/buildings/building.js ([DisasterService], [Tile])
    - src/src/scripts/config.js ([config.disaster])

    Numbers of the request engine are modelled as exact rationals [Q]
    (counts are integers, the constants 0.8 / 0.3 / 8_000 ... are the exact
    decimal values); the per-tile recovery arithmetic of the disaster service
    is modelled with the IEEE-754 binary64 primitive floats of Rocq, which is
    the arithmetic of JavaScript numbers. *)

From Stdlib Require Import ZArith QArith Qround Qminmax Lia Lqa Floats Uint63 String.
From stdpp Require Import base list.

Open Scope Z_scope.

(* ------------------------------------------------------------------ *)
(** ** Request engine (state machine version) *)
(* ------------------------------------------------------------------ *)

Module RequestEngine.

(** [EnginePhase] *)
Inductive EnginePhase := idle | request_active | settling | evaluating.

(** [CitizenRequest['type']] *)
Inductive RequestType := housing | jobs | power | road | commerce.

Inductive RequestStatus := active | fulfilled | expired.

(** [CitySnapshot]: all fields are counts (integers). *)
Record CitySnapshot := mkSnapshot {
  unpoweredCount : Z;
  residentialCapacity : Z;
  population : Z;
  totalResidents : Z;
  employed : Z;
  commercialCount : Z;
  industrialCount : Z;
  residentialCount : Z;
  powerPlantCount : Z;
  powerLineCount : Z;
  roadCount : Z;
  noRoadAccess : Z
}.

(** [CitizenRequest]; the id, citizen name and message are strings drawn
    at random and play no role in the lifecycle, they are kept as opaque
    data. *)
Record CitizenRequest := mkRequest {
  req_id : nat;
  citizenName : nat;
  req_type : RequestType;
  createdAt : Z;
  status : RequestStatus
}.

Definition QZ (z : Z) : Q := inject_Z z.

(** JS [a > b] and [a < b] on numbers. *)
Definition Qgtb (a b : Q) : bool := negb (Qle_bool a b).
Definition Qltb (a b : Q) : bool := negb (Qle_bool b a).

(** [detectProblems]: the snapshot is the one [captureSnapshot] returns. *)
Definition detectProblems (snap : CitySnapshot) : list RequestType :=
  (if (population snap >? 0) &&
      Qgtb (QZ (population snap)) (QZ (residentialCapacity snap) * (8#10))
   then [housing] else []) ++
  (if (totalResidents snap >? 0) &&
      (totalResidents snap - employed snap >? 0) &&
      (commercialCount snap + industrialCount snap <? residentialCount snap)
   then [jobs] else []) ++
  (if unpoweredCount snap >? 0 then [power] else []) ++
  (if noRoadAccess snap >? 0 then [road] else []) ++
  (if (residentialCount snap >? 0) &&
      Qltb (QZ (commercialCount snap)) (QZ (residentialCount snap) * (3#10))
   then [commerce] else []).

Definition snapshot_nonneg (s : CitySnapshot) : Prop :=
  0 <= unpoweredCount s /\ 0 <= residentialCapacity s /\ 0 <= population s /\
  0 <= totalResidents s /\ 0 <= employed s /\ 0 <= commercialCount s /\
  0 <= industrialCount s /\ 0 <= residentialCount s /\ 0 <= powerPlantCount s /\
  0 <= powerLineCount s /\ 0 <= roadCount s /\ 0 <= noRoadAccess s.

(** [Math.max] / [Math.min] on (non-NaN) numbers. *)
Definition Math_max (a b : Q) : Q := if Qle_bool a b then b else a.
Definition Math_min (a b : Q) : Q := if Qle_bool a b then a else b.

(** Result of [checkRequestStatus]; [detail] and [suggestion] are display
    strings computed from the same snapshot and are left out. *)
Record StatusResult := mkStatus {
  resolved : bool;
  status_request : option CitizenRequest
}.

(** The [switch (req.type)] of [checkRequestStatus]: the two criteria
    ("ideal" and "progress") for each request type, where [now] is the
    snapshot captured at call time and [before] the stored
    [snapshotBefore] ([before ? ... : false]). *)
Definition ideal_of (t : RequestType) (now : CitySnapshot) : bool :=
  match t with
  | housing => (population now =? 0) || (residentialCapacity now >=? population now)
  | jobs => commercialCount now + industrialCount now >=? residentialCount now
  | power => unpoweredCount now =? 0
  | road => noRoadAccess now =? 0
  | commerce => Qle_bool (QZ (residentialCount now) * (3#10)) (QZ (commercialCount now))
  end.

Definition progress_of (t : RequestType) (before : option CitySnapshot)
    (now : CitySnapshot) : bool :=
  match before with
  | None => false
  | Some b =>
    match t with
    | housing => residentialCapacity now >? residentialCapacity b
    | jobs => commercialCount now + industrialCount now >?
              commercialCount b + industrialCount b
    | power => (powerPlantCount now >? powerPlantCount b) ||
               (powerLineCount now >? powerLineCount b)
    | road => roadCount now >? roadCount b
    | commerce => commercialCount now >? commercialCount b
    end
  end.

(** [computeHappinessDelta] *)
Definition computeHappinessDelta (request : CitizenRequest)
    (before after : CitySnapshot) : Z :=
  match req_type request with
  | housing => if residentialCapacity after >? residentialCapacity before then 10 else -2
  | jobs => if commercialCount after + industrialCount after >?
               commercialCount before + industrialCount before then 10 else -2
  | power => if (powerPlantCount after >? powerPlantCount before) ||
                (powerLineCount after >? powerLineCount before) ||
                (unpoweredCount after <? unpoweredCount before) then 10 else -2
  | road => if (roadCount after >? roadCount before) ||
               (noRoadAccess after <? noRoadAccess before) then 10 else -2
  | commerce => if commercialCount after >? commercialCount before then 10 else -2
  end.

(** [this.city.happiness = Math.max(0, Math.min(100, (this.city.happiness ?? 50) + delta))];
    [None] is an undefined [city.happiness]. *)
Definition applyHappiness (happiness : option Q) (delta : Z) : Q :=
  Math_max 0 (Math_min 100 (default (50#1) happiness + QZ delta)).

(** [computeNextCooldown]: [problemCount] is [detectProblems().length],
    [rnd] the value of [Math.random()]. *)
Definition computeNextCooldown (happiness : option Q) (problemCount : nat)
    (pop : Z) (rnd : Q) : Q :=
  (let h := default (50#1) happiness in
   let cooldown := 25000#1 in
   let cooldown := cooldown - ((100 - h) / 100) * 8000 in
   let cooldown := cooldown - Math_min (QZ (Z.of_nat problemCount) * 2000) 10000 in
   let cooldown := cooldown - Math_min (QZ pop * 170) 5000 in
   let cooldown := cooldown + (rnd - (1#2)) * 8000 in
   Math_max 8000 (Math_min 40000 cooldown))%Q.

(** The world as the engine observes it during one call: the clock
    ([Date.now()]), what [captureSnapshot()] returns, and the values of
    [Math.random()] drawn for the request index and for the jitter. *)
Record Env := mkEnv {
  env_now : Z;
  env_snap : CitySnapshot;
  env_pick : Q;
  env_jitter : Q;
  env_name : nat;
  env_id : nat
}.

(** Fields of the engine object plus [city.happiness].  The
    [currentRequest] object is shared with the [requests] array: it is
    modelled as its index in [requests], so that setting
    [currentRequest.status] updates the array element. *)
Record State := mkState {
  phase : EnginePhase;
  currentRequest : option nat;
  snapshotBefore : option CitySnapshot;
  settleTicksRemaining : Z;
  expiryTimeoutId : bool;
  requests : list CitizenRequest;
  lastIdleTime : Z;
  nextCooldownMs : Q;
  hasEvaluateFn : bool;
  (** the continuation of [evaluate()] after [await this.evaluateFn(...)] *)
  evalPending : bool;
  cityHappiness : option Q
}.

Definition SETTLE_TICKS : Z := 3.

Definition initState (hasEval : bool) (h : option Q) : State :=
  mkState idle None None 0 false [] 0 (20000#1) hasEval false h.

Definition current (s : State) : option CitizenRequest :=
  match currentRequest s with
  | Some i => requests s !! i
  | None => None
  end.

(** [this.currentRequest.status = st] *)
Definition setCurrentStatus (st : RequestStatus) (s : State) : list CitizenRequest :=
  match currentRequest s with
  | Some i =>
    match requests s !! i with
    | Some r => <[i := {| req_id := req_id r; citizenName := citizenName r;
                          req_type := req_type r; createdAt := createdAt r;
                          status := st |}]> (requests s)
    | None => requests s
    end
  | None => requests s
  end.

(** [r.status === 'active'] *)
Definition is_active (r : CitizenRequest) : bool :=
  match status r with active => true | _ => false end.

(** [getActiveRequests] *)
Definition getActiveRequests (s : State) : list CitizenRequest :=
  List.filter is_active (requests s).

(** [checkRequestStatus] *)
Definition checkRequestStatus (env : Env) (s : State) : StatusResult :=
  match phase s, current s with
  | request_active, Some req =>
    let now := env_snap env in
    let ideal := ideal_of (req_type req) now in
    let progress := progress_of (req_type req) (snapshotBefore s) now in
    mkStatus (ideal || progress) (Some req)
  | _, _ => mkStatus false None
  end.

(** [transitionToIdle] *)
Definition transitionToIdle (env : Env) (s : State) : State :=
  let snap := env_snap env in
  {| phase := idle; currentRequest := currentRequest s;
     snapshotBefore := snapshotBefore s;
     settleTicksRemaining := settleTicksRemaining s;
     expiryTimeoutId := expiryTimeoutId s; requests := requests s;
     lastIdleTime := env_now env;
     nextCooldownMs := computeNextCooldown (cityHappiness s)
                         (length (detectProblems snap)) (population snap)
                         (env_jitter env);
     hasEvaluateFn := hasEvaluateFn s; evalPending := evalPending s;
     cityHappiness := cityHappiness s |}.

(** [createRequest] *)
Definition createRequest (problem : RequestType) (env : Env) : CitizenRequest :=
  mkRequest (env_id env) (env_name env) problem (env_now env) active.

(** [problems[Math.floor(Math.random() * problems.length)]] *)
Definition pickProblem (problems : list RequestType) (r : Q) : RequestType :=
  nth (Z.to_nat (Qfloor (r * QZ (Z.of_nat (length problems))))) problems housing.

(** [tryGenerateRequest] *)
Definition tryGenerateRequest (env : Env) (s : State) : State :=
  if Qltb (QZ (env_now env - lastIdleTime s)) (nextCooldownMs s) then s else
  let problems := detectProblems (env_snap env) in
  match problems with
  | [] => s
  | _ :: _ =>
    let request := createRequest (pickProblem problems (env_pick env)) env in
    {| phase := request_active;
       currentRequest := Some (length (requests s));
       snapshotBefore := Some (env_snap env);
       settleTicksRemaining := settleTicksRemaining s;
       expiryTimeoutId := true;
       requests := requests s ++ [request];
       lastIdleTime := lastIdleTime s; nextCooldownMs := nextCooldownMs s;
       hasEvaluateFn := hasEvaluateFn s; evalPending := evalPending s;
       cityHappiness := cityHappiness s |}
  end.

(** End of [evaluate()]: [currentRequest = null; snapshotBefore = null;
    transitionToIdle()]. *)
Definition finishEvaluate (env : Env) (s : State) : State :=
  transitionToIdle env
    {| phase := phase s; currentRequest := None; snapshotBefore := None;
       settleTicksRemaining := settleTicksRemaining s;
       expiryTimeoutId := expiryTimeoutId s; requests := requests s;
       lastIdleTime := lastIdleTime s; nextCooldownMs := nextCooldownMs s;
       hasEvaluateFn := hasEvaluateFn s; evalPending := false;
       cityHappiness := cityHappiness s |}.

(** [evaluate()]: the synchronous part, up to [await this.evaluateFn(...)].
    Without an evaluation callback there is no [await] and the function
    runs to its end; with one, the rest runs later ([evalPending]). *)
Definition evaluate (env : Env) (s : State) : State :=
  match current s, snapshotBefore s with
  | Some request, Some before =>
    let after := env_snap env in
    let delta := computeHappinessDelta request before after in
    let s1 := {| phase := phase s; currentRequest := currentRequest s;
                 snapshotBefore := snapshotBefore s;
                 settleTicksRemaining := settleTicksRemaining s;
                 expiryTimeoutId := expiryTimeoutId s; requests := requests s;
                 lastIdleTime := lastIdleTime s; nextCooldownMs := nextCooldownMs s;
                 hasEvaluateFn := hasEvaluateFn s; evalPending := hasEvaluateFn s;
                 cityHappiness := Some (applyHappiness (cityHappiness s) delta) |} in
    if hasEvaluateFn s then s1 else finishEvaluate env s1
  | _, _ => transitionToIdle env s
  end.

(** [onCityChanged] *)
Definition onCityChanged (env : Env) (s : State) : State :=
  match phase s with
  | idle => tryGenerateRequest env s
  | settling =>
    let n := settleTicksRemaining s - 1 in
    let s1 := {| phase := phase s; currentRequest := currentRequest s;
                 snapshotBefore := snapshotBefore s; settleTicksRemaining := n;
                 expiryTimeoutId := expiryTimeoutId s; requests := requests s;
                 lastIdleTime := lastIdleTime s; nextCooldownMs := nextCooldownMs s;
                 hasEvaluateFn := hasEvaluateFn s; evalPending := evalPending s;
                 cityHappiness := cityHappiness s |} in
    if n <=? 0 then
      evaluate env {| phase := evaluating; currentRequest := currentRequest s1;
                      snapshotBefore := snapshotBefore s1; settleTicksRemaining := n;
                      expiryTimeoutId := expiryTimeoutId s1; requests := requests s1;
                      lastIdleTime := lastIdleTime s1; nextCooldownMs := nextCooldownMs s1;
                      hasEvaluateFn := hasEvaluateFn s1; evalPending := evalPending s1;
                      cityHappiness := cityHappiness s1 |}
    else s1
  | request_active | evaluating => s
  end.

(** [markResolved] *)
Definition markResolved (s : State) : State :=
  match phase s, currentRequest s with
  | request_active, Some _ =>
    {| phase := settling; currentRequest := currentRequest s;
       snapshotBefore := snapshotBefore s; settleTicksRemaining := SETTLE_TICKS;
       expiryTimeoutId := false; requests := setCurrentStatus fulfilled s;
       lastIdleTime := lastIdleTime s; nextCooldownMs := nextCooldownMs s;
       hasEvaluateFn := hasEvaluateFn s; evalPending := evalPending s;
       cityHappiness := cityHappiness s |}
  | _, _ => s
  end.

(** [expireRequest] (the expiry timer callback) *)
Definition expireRequest (env : Env) (s : State) : State :=
  match phase s, currentRequest s with
  | request_active, Some _ =>
    transitionToIdle env
      {| phase := phase s; currentRequest := None; snapshotBefore := None;
         settleTicksRemaining := settleTicksRemaining s;
         expiryTimeoutId := false; requests := setCurrentStatus expired s;
         lastIdleTime := lastIdleTime s; nextCooldownMs := nextCooldownMs s;
         hasEvaluateFn := hasEvaluateFn s; evalPending := evalPending s;
         cityHappiness := cityHappiness s |}
  | _, _ => s
  end.

(** One event of the engine.  The expiry callback may fire at any moment
    (stale timers included), ticks and [markResolved] calls interleave
    freely, the rest of [evaluate()] runs once its [await] returns, and
    other code may overwrite [city.happiness]. *)
Inductive step : State -> State -> Prop :=
  | step_tick env s : step s (onCityChanged env s)
  | step_markResolved s : step s (markResolved s)
  | step_expire env s : step s (expireRequest env s)
  | step_evalDone env s : evalPending s = true -> step s (finishEvaluate env s)
  | step_happiness h s :
      step s {| phase := phase s; currentRequest := currentRequest s;
                snapshotBefore := snapshotBefore s;
                settleTicksRemaining := settleTicksRemaining s;
                expiryTimeoutId := expiryTimeoutId s; requests := requests s;
                lastIdleTime := lastIdleTime s; nextCooldownMs := nextCooldownMs s;
                hasEvaluateFn := hasEvaluateFn s; evalPending := evalPending s;
                cityHappiness := h |}.

Inductive reachable : State -> Prop :=
  | reach_init b h : reachable (initState b h)
  | reach_step s s' : reachable s -> step s s' -> reachable s'.

(** The remediation signal of each request type, in the words of the
    spec: housing - capacity increased; jobs - commercial + industrial
    increased; power - plant or line count increased, or unpowered count
    decreased; road - road count increased, or no-access count decreased;
    commerce - commercial count increased. *)
Definition spec_signal_improved (t : RequestType) (b a : CitySnapshot) : Prop :=
  match t with
  | housing => residentialCapacity a > residentialCapacity b
  | jobs => commercialCount a + industrialCount a > commercialCount b + industrialCount b
  | power => (powerPlantCount a > powerPlantCount b \/ powerLineCount a > powerLineCount b) \/
             unpoweredCount a < unpoweredCount b
  | road => roadCount a > roadCount b \/ noRoadAccess a < noRoadAccess b
  | commerce => commercialCount a > commercialCount b
  end.

(** The adaptive cooldown in the words of the spec: 25 s minus
    [(100 - happiness) / 100 * 8 s], minus [min(problemCount * 2 s, 10 s)],
    minus [min(population * 170 ms, 5 s)], plus the jitter, clamped to
    [[8 s, 40 s]] (all in milliseconds). *)
Definition spec_cooldown (happiness : Q) (problemCount : nat) (pop : Z) (jitter : Q) : Q :=
  (Qmax 8000 (Qmin 40000
     (25000 - (100 - happiness) / 100 * 8000
      - Qmin (QZ (Z.of_nat problemCount) * 2000) 10000
      - Qmin (QZ pop * 170) 5000
      + jitter)))%Q.

(** The single-slot invariant: in [request_active] the current request is
    the only active element of [requests]; in every other phase no element
    is active; a pending [evaluate()] continuation only exists in
    [evaluating]. *)
Definition Inv (s : State) : Prop :=
  (evalPending s = true -> phase s = evaluating) /\
  match phase s with
  | request_active =>
    exists i r, currentRequest s = Some i /\ requests s !! i = Some r /\
      is_active r = true /\
      (forall j r', requests s !! j = Some r' -> is_active r' = true -> j = i)
  | _ => forall j r', requests s !! j = Some r' -> is_active r' = false
  end.

(** Concrete inputs: a city of 50 inhabitants and residential capacity 40,
    then the same city with capacity 48. *)
Definition example_snap0 : CitySnapshot := mkSnapshot 0 40 50 0 0 0 0 0 0 0 0 0.
Definition example_snap1 : CitySnapshot := mkSnapshot 0 48 50 0 0 0 0 0 0 0 0 0.
Definition example_env0 : Env := mkEnv 20000 example_snap0 0 0 0 0.
Definition example_env1 : Env := mkEnv 30000 example_snap1 0 0 0 0.

(** The engine after its first tick on [example_env0]. *)
Definition example_state1 : State := onCityChanged example_env0 (initState false None).

End RequestEngine.

(* ------------------------------------------------------------------ *)
(** ** Disaster service *)
(* ------------------------------------------------------------------ *)

Module Disaster.

(** [Tile]: the fields the disaster service reads and writes.  A building
    is represented by its [type]. *)
Record Tile := mkTile {
  building : option string;
  damaged : bool;
  recoveryProgress : float;
  activeRecovery : bool
}.

(** The city grid: [size] x [size] tiles and the simulation clock. *)
Record City := mkCity {
  size : Z;
  tiles : Z -> Z -> Tile;
  simTime : Z
}.

Definition in_bounds (c : City) (x y : Z) : bool :=
  (0 <=? x) && (x <? size c) && (0 <=? y) && (y <? size c).

(** Modelled from the spec: [City.getTile] (src/scripts/sim/city.js is not
    part of the sources): the tile at [(x, y)], [null] outside the grid. *)
Definition getTile (c : City) (x y : Z) : option Tile :=
  if in_bounds c x y then Some (tiles c x y) else None.

Definition updateTile (c : City) (x y : Z) (f : Tile -> Tile) : City :=
  {| size := size c;
     tiles := fun x' y' => if (x' =? x) && (y' =? y) then f (tiles c x y)
                           else tiles c x' y';
     simTime := simTime c |}.

(** Modelled from the spec: [City.bulldoze] ("demolish any building"):
    the tile's building is removed. *)
Definition bulldoze (c : City) (x y : Z) : City :=
  updateTile c x y (fun t => {| building := None; damaged := damaged t;
                                recoveryProgress := recoveryProgress t;
                                activeRecovery := activeRecovery t |}).

(** [config.disaster] *)
Definition minBuildingsForDisaster : Z := 8.
Definition minTicksBetweenDisasters : Z := 60.
Definition disasterChance : float := 0.02%float.
Definition minAffectedSize : Z := 2.
Definition maxAffectedSize : Z := 3.
Definition minRecoveryTicks : Z := 300.
Definition maxRecoveryTicks : Z := 600.
Definition activeRecoveryMultiplier : float := 5%float.

(** An entry of [affectedTiles]; its [tile] field is the grid tile at
    [(x, y)] (the same object), so it is read through the grid. *)
Record AffectedTile := mkAffected {
  at_x : Z;
  at_y : Z;
  totalRecoveryTicks : Z
}.

Record ActiveDisaster := mkDisaster {
  epicenterX : Z;
  epicenterY : Z;
  affectedTiles : list AffectedTile
}.

(** The service object; [lastDisasterTick = None] is [-Infinity]. *)
Record Service := mkService {
  activeDisaster : option ActiveDisaster;
  lastDisasterTick : option Z;
  notifyFnSet : bool;
  recoveryCompleteFnSet : bool
}.

(** Calls of [#notifyFn] and [#recoveryCompleteFn]. *)
Inductive Notification :=
  | DisasterNotice (ex ey : Z) (affectedTileCount destroyedBuildingCount : nat)
  | RecoveryComplete.

(** The random draws of one [tryTriggerDisaster] call: [d_chance] is the
    [Math.random()] of the Bernoulli trial; the others are the values of
    [Math.floor(Math.random() * k)] for the epicenter index, the two extent
    offsets and, per tile, the recovery-duration offset. *)
Record Draws := mkDraws {
  d_chance : float;
  d_epicenter : nat;
  d_sizeX : Z;
  d_sizeY : Z;
  d_recovery : Z -> Z -> Z
}.

Fixpoint zrange (lo : Z) (n : nat) : list Z :=
  match n with
  | O => []
  | S k => lo :: zrange (lo + 1) k
  end.

(** [for (let x = lo; x <= hi; x++) for (let y = lo'; y <= hi'; y++)] *)
Definition coords (lox hix loy hiy : Z) : list (Z * Z) :=
  flat_map (fun x => map (fun y => (x, y)) (zrange loy (Z.to_nat (hiy - loy + 1))))
           (zrange lox (Z.to_nat (hix - lox + 1))).

Definition hasBuilding (t : option Tile) : bool :=
  match t with Some t => match building t with Some _ => true | None => false end
             | None => false end.

(** The building-count loop of [tryTriggerDisaster]. *)
Definition buildingCount (c : City) : Z :=
  Z.of_nat (length (List.filter (fun '(x, y) => hasBuilding (getTile c x y))
                                (coords 0 (size c - 1) 0 (size c - 1)))).

(** The [buildingTiles] loop of [tryTriggerDisaster]. *)
Definition buildingTiles (c : City) : list (Z * Z) :=
  List.filter (fun '(x, y) => hasBuilding (getTile c x y))
              (coords 0 (size c - 1) 0 (size c - 1)).

(** Body of the loop of [triggerDisaster] for tile [(x, y)]. *)
Definition triggerTile (rec : Z -> Z -> Z) (st : City * list AffectedTile)
    (xy : Z * Z) : City * list AffectedTile :=
  let '(c, acc) := st in
  let '(x, y) := xy in
  match getTile c x y with
  | None => (c, acc)
  | Some t =>
    let c1 := match building t with Some _ => bulldoze c x y | None => c end in
    let total := minRecoveryTicks + rec x y in
    let c2 := updateTile c1 x y
                (fun t => {| building := building t; damaged := true;
                             recoveryProgress := 0%float;
                             activeRecovery := activeRecovery t |}) in
    (c2, acc ++ [mkAffected x y total])
  end.

(** [triggerDisaster] *)
Definition triggerDisaster (c : City) (svc : Service) (ex ey sx sy : Z)
    (rec : Z -> Z -> Z) : City * Service * list Notification :=
  let startX := Z.max 0 (ex - sx / 2) in
  let startY := Z.max 0 (ey - sy / 2) in
  let endX := Z.min (size c - 1) (startX + sx - 1) in
  let endY := Z.min (size c - 1) (startY + sy - 1) in
  let '(c', affected) := fold_left (triggerTile rec) (coords startX endX startY endY) (c, []) in
  let destroyedCount :=
    length (List.filter (fun e => negb (hasBuilding (Some (tiles c' (at_x e) (at_y e))))) affected) in
  let svc' := {| activeDisaster := Some (mkDisaster ex ey affected);
                 lastDisasterTick := Some (simTime c');
                 notifyFnSet := notifyFnSet svc;
                 recoveryCompleteFnSet := recoveryCompleteFnSet svc |} in
  (c', svc',
   if notifyFnSet svc then [DisasterNotice ex ey (length affected) destroyedCount] else []).

(** [city.simTime - this.lastDisasterTick < cfg.minTicksBetweenDisasters] *)
Definition tooSoon (c : City) (svc : Service) : bool :=
  match lastDisasterTick svc with
  | None => false
  | Some t => simTime c - t <? minTicksBetweenDisasters
  end.

(** [tryTriggerDisaster] *)
Definition tryTriggerDisaster (c : City) (svc : Service) (dr : Draws)
    : City * Service * list Notification :=
  if buildingCount c <? minBuildingsForDisaster then (c, svc, []) else
  if tooSoon c svc then (c, svc, []) else
  if PrimFloat.ltb disasterChance (d_chance dr) then (c, svc, []) else
  match nth_error (buildingTiles c) (d_epicenter dr) with
  | None => (c, svc, [])
  | Some (ex, ey) =>
    triggerDisaster c svc ex ey (minAffectedSize + d_sizeX dr)
      (minAffectedSize + d_sizeY dr) (d_recovery dr)
  end.

(** [Math.min(a, b)] on floats. *)
Definition Math_min (a b : float) : float :=
  if PrimFloat.is_nan a || PrimFloat.is_nan b then PrimFloat.nan
  else if PrimFloat.ltb b a then b else a.

(** [1 / entry.totalRecoveryTicks], times the multiplier when the tile is
    actively recovered (the tick count is a non-negative integer). *)
Definition recoveryIncrement (total : Z) (active : bool) : float :=
  let increment := (1 / PrimFloat.of_uint63 (Uint63.of_Z total))%float in
  if active then (increment * activeRecoveryMultiplier)%float else increment.

Definition nextProgress (total : Z) (active : bool) (p : float) : float :=
  Math_min 1 (p + recoveryIncrement total active)%float.

(** Body of the first loop of [advanceRecovery]; the flag records whether
    the entry was pushed on [recovered]. *)
Definition recoverEntry (c : City) (e : AffectedTile) : City * bool :=
  let t := tiles c (at_x e) (at_y e) in
  let p := nextProgress (totalRecoveryTicks e) (activeRecovery t) (recoveryProgress t) in
  let c1 := updateTile c (at_x e) (at_y e)
              (fun t => {| building := building t; damaged := damaged t;
                           recoveryProgress := p; activeRecovery := activeRecovery t |}) in
  if PrimFloat.leb 1 p then
    (updateTile c1 (at_x e) (at_y e)
       (fun t => {| building := building t; damaged := false;
                    recoveryProgress := 0%float; activeRecovery := false |}), true)
  else (c1, false).

Fixpoint recoverAll (c : City) (l : list AffectedTile) : City * list (AffectedTile * bool) :=
  match l with
  | [] => (c, [])
  | e :: l' =>
    let '(c1, r) := recoverEntry c e in
    let '(c2, rs) := recoverAll c1 l' in
    (c2, (e, r) :: rs)
  end.

(** [advanceRecovery]: the second loop removes every recovered entry (each
    entry is its own object, found by [indexOf]). *)
Definition advanceRecovery (c : City) (svc : Service) (d : ActiveDisaster)
    : City * Service * list Notification :=
  let '(c', flags) := recoverAll c (affectedTiles d) in
  let remaining := map fst (List.filter (fun p => negb (snd p)) flags) in
  match remaining with
  | [] =>
    (c', {| activeDisaster := None; lastDisasterTick := lastDisasterTick svc;
            notifyFnSet := notifyFnSet svc;
            recoveryCompleteFnSet := recoveryCompleteFnSet svc |},
     if recoveryCompleteFnSet svc then [RecoveryComplete] else [])
  | _ :: _ =>
    (c', {| activeDisaster := Some (mkDisaster (epicenterX d) (epicenterY d) remaining);
            lastDisasterTick := lastDisasterTick svc;
            notifyFnSet := notifyFnSet svc;
            recoveryCompleteFnSet := recoveryCompleteFnSet svc |}, [])
  end.

(** [simulate] *)
Definition simulate (c : City) (svc : Service) (dr : Draws)
    : City * Service * list Notification :=
  match activeDisaster svc with
  | None => tryTriggerDisaster c svc dr
  | Some d => advanceRecovery c svc d
  end.

(** [recoverTile]: the new city and [success]. *)
Definition recoverTile (c : City) (svc : Service) (x y : Z) : City * bool :=
  match activeDisaster svc with
  | None => (c, false)
  | Some d =>
    match List.find (fun e => (at_x e =? x) && (at_y e =? y)) (affectedTiles d) with
    | None => (c, false)
    | Some e =>
      if activeRecovery (tiles c (at_x e) (at_y e)) then (c, false)
      else (updateTile c (at_x e) (at_y e)
              (fun t => {| building := building t; damaged := damaged t;
                           recoveryProgress := recoveryProgress t;
                           activeRecovery := true |}), true)
    end
  end.

(** [getDisasterInfo]: [None] is the [active: false] answer; otherwise the
    tile count and [avgProgress] before rounding. *)
Definition getDisasterInfo (c : City) (svc : Service) : option (nat * float) :=
  match activeDisaster svc with
  | None => None
  | Some d =>
    let ts := affectedTiles d in
    let sum := fold_left (fun s e => (s + recoveryProgress (tiles c (at_x e) (at_y e)))%float) ts 0%float in
    Some (length ts, (sum / PrimFloat.of_uint63 (Uint63.of_Z (Z.of_nat (length ts))))%float)
  end.

(** Random draws as [tryTriggerDisaster] can make them:
    [Math.floor(Math.random() * k)] lies in [[0, k)]. *)
Definition wf_draws (c : City) (dr : Draws) : Prop :=
  (d_epicenter dr < length (buildingTiles c))%nat /\
  0 <= d_sizeX dr <= maxAffectedSize - minAffectedSize /\
  0 <= d_sizeY dr <= maxAffectedSize - minAffectedSize /\
  (forall x y, 0 <= d_recovery dr x y <= maxRecoveryTicks - minRecoveryTicks).

(** Events of the city and its disaster service: a simulation tick, a
    [recover_tile] command, and any change of the city made by other code
    (placing or demolishing buildings, the clock). *)
Inductive sys_step : City * Service -> City * Service -> Prop :=
  | sys_simulate c svc dr c' svc' ns :
      wf_draws c dr -> simulate c svc dr = (c', svc', ns) -> sys_step (c, svc) (c', svc')
  | sys_recover c svc x y : sys_step (c, svc) (fst (recoverTile c svc x y), svc)
  | sys_world c c' svc : sys_step (c, svc) (c', svc).

Inductive sys_reachable : City * Service -> Prop :=
  | sys_init c n r : sys_reachable (c, mkService None None n r)
  | sys_next st st' : sys_reachable st -> sys_step st st' -> sys_reachable st'.

(** [n] simulation ticks with the same draws. *)
Fixpoint ticks (n : nat) (dr : Draws) (c : City) (svc : Service) : City * Service :=
  match n with
  | O => (c, svc)
  | S k =>
    let '(c1, s1) := ticks k dr c svc in
    let '(c2, s2, _) := simulate c1 s1 dr in
    (c2, s2)
  end.

(** The progress of one tile after [n] increments from 0. *)
Fixpoint progressAfter (total : Z) (active : bool) (n : nat) : float :=
  match n with
  | O => 0%float
  | S k => nextProgress total active (progressAfter total active k)
  end.

(** A 4 x 4 city whose columns 2 and 3 hold residential buildings. *)
Definition example_city : City :=
  {| size := 4;
     tiles := fun x _ => {| building := if 2 <=? x then Some "residential"%string else None;
                            damaged := false; recoveryProgress := 0%float;
                            activeRecovery := false |};
     simTime := 100 |}.

Definition example_service : Service := mkService None None true true.

(** Trial succeeds, epicenter [buildingTiles[1] = (2, 1)], a 2 x 2 extent. *)
Definition example_draws : Draws := mkDraws 0%float 1 0 0 (fun _ _ => 0).

(** An active hazard always lists at least one tile. *)
Definition DInv (svc : Service) : Prop :=
  forall d, activeDisaster svc = Some d -> affectedTiles d <> [].

(** A 4 x 4 city without buildings. *)
Definition empty_city : City :=
  {| size := 4; tiles := fun _ _ => mkTile None false 0%float false; simTime := 1000 |}.

(** A hazard at (1, 1) with that single tile, actively recovered, 300 ticks. *)
Definition recovery_city : City :=
  {| size := 4; tiles := fun _ _ => mkTile None true 0%float true; simTime := 0 |}.
Definition recovery_service : Service :=
  mkService (Some (mkDisaster 1 1 [mkAffected 1 1 300])) None true true.

(** The state after the hazard of [example_draws] was triggered. *)
Definition triggered_city : City :=
  fst (fst (simulate example_city example_service example_draws)).
Definition triggered_service : Service :=
  snd (fst (simulate example_city example_service example_draws)).
Definition triggered_disaster : ActiveDisaster :=
  match activeDisaster triggered_service with Some d => d | None => mkDisaster 0 0 [] end.

(** The grid coordinates of an affected-tile entry. *)
Definition coord (e : AffectedTile) : Z * Z := (at_x e, at_y e).

(** The first-row corner and the extent of the area [triggerDisaster]
    loops over ([startX], [endX], [startY], [endY]). *)
Definition startOf (e s : Z) : Z := Z.max 0 (e - s / 2).
Definition endOf (c : City) (e s : Z) : Z := Z.min (size c - 1) (startOf e s + s - 1).

(** The recovery tick at which a tile whose progress is [p] after [k]
    ticks first reaches progress [>= 1] (the test of [advanceRecovery]),
    searched for [fuel] more ticks. *)
Fixpoint firstRecovered (total : Z) (active : bool) (p : float) (k fuel : nat)
    : option nat :=
  match fuel with
  | O => None
  | S f =>
    let p' := nextProgress total active p in
    if PrimFloat.leb 1 p' then Some (S k) else firstRecovered total active p' (S k) f
  end.

(** The lower bound of the number of recovery ticks: [totalRecoveryTicks]
    for a passive tile, [ceil(totalRecoveryTicks / 5)] under active
    recovery. *)
Definition nominalTicks (total : Z) (active : bool) : nat :=
  Z.to_nat (if active then (total + 4) / 5 else total).

(** Every duration [triggerDisaster] can draw ([300 .. 600]) recovers, from
    progress 0 and with a fixed flag, in the nominal number of ticks or
    one more. *)
Definition recoveryTableOk (active : bool) : bool :=
  forallb (fun total =>
    match firstRecovered total active 0%float 0 1000 with
    | Some n => Nat.leb (nominalTicks total active) n &&
                Nat.leb n (S (nominalTicks total active))
    | None => false
    end) (zrange minRecoveryTicks (Z.to_nat (maxRecoveryTicks - minRecoveryTicks + 1))).

(** What [triggerDisaster] guarantees of a hazard and recovery keeps: the
    affected tiles have pairwise distinct coordinates, and each has a
    duration of [minRecoveryTicks .. maxRecoveryTicks] ticks. *)
Definition hazard_wf (svc : Service) : Prop :=
  forall d, activeDisaster svc = Some d ->
    List.NoDup (map coord (affectedTiles d)) /\
    (forall e, In e (affectedTiles d) ->
       minRecoveryTicks <= totalRecoveryTicks e <= maxRecoveryTicks).

(** The city after [recover_tile] on tile (1, 0) of the hazard triggered
    by [example_draws]. *)
Definition recovered_city : City := fst (recoverTile triggered_city triggered_service 1 0).

End Disaster.

(* ------------------------------------------------------------------ *)
(** ** Speech coordinator *)
(* ------------------------------------------------------------------ *)

Module Speech.

(** The module-level state: the two flags, the [waiters] queue (each
    waiter is the [resolve] function of one [waitForSilence()] promise,
    named by the number of that call), and the promises resolved so far,
    in resolution order. *)
Record State := mkState {
  mayorSpeaking : bool;
  citizenSpeaking : bool;
  waiters : list nat;
  resolvedWaiters : list nat
}.

(** [flushWaiters] *)
Definition flushWaiters (s : State) : State :=
  if mayorSpeaking s || citizenSpeaking s then s
  else {| mayorSpeaking := mayorSpeaking s; citizenSpeaking := citizenSpeaking s;
          waiters := []; resolvedWaiters := resolvedWaiters s ++ waiters s |}.

(** [setMayorSpeaking] *)
Definition setMayorSpeaking (speaking : bool) (s : State) : State :=
  let s1 := {| mayorSpeaking := speaking; citizenSpeaking := citizenSpeaking s;
               waiters := waiters s; resolvedWaiters := resolvedWaiters s |} in
  if speaking then s1 else flushWaiters s1.

(** [setCitizenSpeaking] *)
Definition setCitizenSpeaking (speaking : bool) (s : State) : State :=
  let s1 := {| mayorSpeaking := mayorSpeaking s; citizenSpeaking := speaking;
               waiters := waiters s; resolvedWaiters := resolvedWaiters s |} in
  if speaking then s1 else flushWaiters s1.

(** [waitForSilence()] for the call numbered [w]: resolved at once when
    both flags are clear, otherwise queued (its 10 s timer is armed). *)
Definition waitForSilence (w : nat) (s : State) : State :=
  if negb (mayorSpeaking s) && negb (citizenSpeaking s) then
    {| mayorSpeaking := mayorSpeaking s; citizenSpeaking := citizenSpeaking s;
       waiters := waiters s; resolvedWaiters := resolvedWaiters s ++ [w] |}
  else
    {| mayorSpeaking := mayorSpeaking s; citizenSpeaking := citizenSpeaking s;
       waiters := waiters s ++ [w]; resolvedWaiters := resolvedWaiters s |}.

(** [waiters.splice(idx, 1)] for the first occurrence of [w]. *)
Fixpoint removeFirst (w : nat) (l : list nat) : list nat :=
  match l with
  | [] => []
  | v :: l' => if Nat.eqb v w then l' else v :: removeFirst w l'
  end.

(** The 10 s failsafe timer of the call numbered [w]. *)
Definition failsafe (w : nat) (s : State) : State :=
  if existsb (Nat.eqb w) (waiters s) then
    {| mayorSpeaking := false; citizenSpeaking := false;
       waiters := removeFirst w (waiters s);
       resolvedWaiters := resolvedWaiters s ++ [w] |}
  else s.

(** What happens to the coordinator: the two setters, a [waitForSilence()]
    call (numbered [w]) and the 10 s failsafe timer of call [w]. *)
Inductive Event :=
  | ev_mayor (speaking : bool)
  | ev_citizen (speaking : bool)
  | ev_wait (w : nat)
  | ev_timeout (w : nat).

Definition applyEvent (s : State) (e : Event) : State :=
  match e with
  | ev_mayor b => setMayorSpeaking b s
  | ev_citizen b => setCitizenSpeaking b s
  | ev_wait w => waitForSilence w s
  | ev_timeout w => failsafe w s
  end.

(** The module-level initialisation: both flags clear, no waiter. *)
Definition speechInit : State := mkState false false [] [].

(** The coordinator after a sequence of events. *)
Definition run (evs : list Event) : State := fold_left applyEvent evs speechInit.

(** The numbers of the [waitForSilence()] calls, in call order. *)
Fixpoint calls (evs : list Event) : list nat :=
  match evs with
  | [] => []
  | ev_wait w :: evs' => w :: calls evs'
  | _ :: evs' => calls evs'
  end.

(** Each call is a new promise (a fresh number), and a failsafe timer only
    belongs to a call made earlier ([seen]). *)
Fixpoint wf_events (seen : list nat) (evs : list Event) : bool :=
  match evs with
  | [] => true
  | ev_wait w :: evs' => negb (existsb (Nat.eqb w) seen) && wf_events (seen ++ [w]) evs'
  | ev_timeout w :: evs' => existsb (Nat.eqb w) seen && wf_events seen evs'
  | _ :: evs' => wf_events seen evs'
  end.

Definition is_timeout (e : Event) : bool :=
  match e with ev_timeout _ => true | _ => false end.

(** The mayor starts speaking, two callers wait, the citizen speaks, then
    both fall silent. *)
Definition example_events : list Event :=
  [ev_mayor true; ev_wait 1; ev_citizen true; ev_wait 2; ev_mayor false; ev_citizen false].

End Speech.

(* ------------------------------------------------------------------ *)
(** ** Request engine (first version: several requests, fulfilment poll) *)
(* ------------------------------------------------------------------ *)

(** The first [RequestEngine] class of request-engine.ts (lines 35-317),
    driven by [start()]: [tick()] every 30 s, [checkFulfillment()] every
    5 s.  Its [detectProblems()] computes the same counts as
    [captureSnapshot()] and tests them with the same conditions as the
    second class, so it is [RequestEngine.detectProblems] of the snapshot
    of the city. *)
Module LegacyRequestEngine.
Import RequestEngine.

(** A request; [message] and the [citizenName] are display data, [reward]
    is [5] for every type, and [condition] is a closure over the city,
    whose outcome at poll time is an input of [checkFulfillment]. *)
Record Request := mkLRequest {
  l_id : nat;
  l_type : RequestType;
  l_createdAt : Z;
  l_status : RequestStatus
}.

(** The [requests] array and [city.happiness]. *)
Record State := mkLState {
  l_requests : list Request;
  l_happiness : option Q
}.

Definition maxActiveRequests : nat := 3.
Definition reward : Z := 5.
(** [5 * 60 * 1000] *)
Definition expiryMs : Z := 5 * 60 * 1000.

Definition l_is_active (r : Request) : bool :=
  match l_status r with active => true | _ => false end.

Definition l_is_fulfilled (r : Request) : bool :=
  match l_status r with fulfilled => true | _ => false end.

(** [getActiveRequests] *)
Definition getActiveRequests (s : State) : list Request :=
  List.filter l_is_active (l_requests s).

(** [generateRequest(problem)]: never [null] for the five problem names. *)
Definition generateRequest (problem : RequestType) (id : nat) (now : Z) : Request :=
  mkLRequest id problem now active.

(** [tick()]: [snap] is the city as [detectProblems()] reads it, [pick]
    the [Math.random()] of the problem index. *)
Definition tick (snap : CitySnapshot) (pick : Q) (now : Z) (id : nat) (s : State) : State :=
  if Nat.leb maxActiveRequests (length (getActiveRequests s)) then s else
  match detectProblems snap with
  | [] => s
  | problems =>
    {| l_requests := l_requests s ++ [generateRequest (pickProblem problems pick) id now];
       l_happiness := l_happiness s |}
  end.

Definition setStatus (st : RequestStatus) (r : Request) : Request :=
  mkLRequest (l_id r) (l_type r) (l_createdAt r) st.

(** One iteration of the loop of [checkFulfillment()]: [cond] is what
    [req.condition()] does, [Some b] when it returns [b], [None] when it
    throws (caught and skipped). *)
Definition checkOne (now : Z) (cond : option bool) (r : Request) (h : option Q)
    : Request * option Q :=
  if negb (l_is_active r) then (r, h) else
  let '(r1, h1) :=
    match cond with
    | Some true => (setStatus fulfilled r, Some (Math_min 100 (default (50#1) h + QZ reward)))
    | _ => (r, h)
    end in
  if (now - l_createdAt r1 >? expiryMs) && l_is_active r1
  then (setStatus expired r1, h1) else (r1, h1).

(** The loop over [this.requests]; [conds i] is the outcome of the
    condition of the [i]-th request. *)
Fixpoint checkAll (now : Z) (conds : nat -> option bool) (i : nat)
    (rs : list Request) (h : option Q) : list Request * option Q :=
  match rs with
  | [] => ([], h)
  | r :: rs' =>
    let '(r1, h1) := checkOne now (conds i) r h in
    let '(rs2, h2) := checkAll now conds (S i) rs' h1 in
    (r1 :: rs2, h2)
  end.

(** [checkFulfillment()] at time [now] ([Date.now()]). *)
Definition checkFulfillment (now : Z) (conds : nat -> option bool) (s : State) : State :=
  let '(rs, h) := checkAll now conds 0 (l_requests s) (l_happiness s) in
  mkLState rs h.

(** The states the engine can reach: ticks and polls in any order, at any
    time, on any city, and other code writing [city.happiness]. *)
Inductive reachable : State -> Prop :=
  | lr_init h : reachable (mkLState [] h)
  | lr_tick snap pick now id s : reachable s -> reachable (tick snap pick now id s)
  | lr_check now conds s : reachable s -> reachable (checkFulfillment now conds s)
  | lr_happiness h s : reachable s -> reachable (mkLState (l_requests s) h).

(** The number of positions at which a request that was not fulfilled in
    [before] is fulfilled in [after]: the requests a poll fulfils. *)
Fixpoint newlyFulfilled (before after : list Request) : nat :=
  match before, after with
  | r :: b, r' :: a =>
    ((if negb (l_is_fulfilled r) && l_is_fulfilled r' then 1 else 0) + newlyFulfilled b a)%nat
  | _, _ => O
  end.

(** A city with a housing shortage, polled with every condition false. *)
Definition example_tick (s : State) (now : Z) (id : nat) : State :=
  tick example_snap0 0 now id s.

End LegacyRequestEngine.

(* ================================================================== *)
(** * Properties of the request engine *)
(* ================================================================== *)

Module RequestEngineFacts.
Import RequestEngine.

(** Arithmetic on the snapshot comparisons. *)

Lemma Qgtb_true (a b : Q) : Qgtb a b = true <-> (b < a)%Q.
Proof.
  unfold Qgtb. rewrite negb_true_iff. split.
  - intros H. apply Qnot_le_lt. intros H'. apply Qle_bool_iff in H'. congruence.
  - intros H. destruct (Qle_bool a b) eqn:E; [|reflexivity].
    apply Qle_bool_iff in E. exfalso. apply (Qlt_not_le b a); assumption.
Qed.

Lemma Qltb_true (a b : Q) : Qltb a b = true <-> (a < b)%Q.
Proof. unfold Qltb. apply Qgtb_true. Qed.

Lemma QZ_lt_scaled (a b : Z) (p : Z) (q : positive) :
  (QZ a < QZ b * (p # q))%Q <-> a * Zpos q < b * p.
Proof. unfold QZ, Qlt, Qmult; simpl. lia. Qed.

Lemma in_cond (t t' : RequestType) (b : bool) :
  In t (if b then [t'] else []) <-> b = true /\ t = t'.
Proof. destruct b; simpl; intuition congruence. Qed.

(** Which condition puts which category into [detectProblems]. *)
Lemma in_detectProblems (snap : CitySnapshot) (t : RequestType) :
  In t (detectProblems snap) <->
  match t with
  | housing => (population snap >? 0) &&
               Qgtb (QZ (population snap)) (QZ (residentialCapacity snap) * (8#10))
  | jobs => (totalResidents snap >? 0) && (totalResidents snap - employed snap >? 0) &&
            (commercialCount snap + industrialCount snap <? residentialCount snap)
  | power => unpoweredCount snap >? 0
  | road => noRoadAccess snap >? 0
  | commerce => (residentialCount snap >? 0) &&
                Qltb (QZ (commercialCount snap)) (QZ (residentialCount snap) * (3#10))
  end = true.
Proof.
  unfold detectProblems. rewrite !in_app_iff, !in_cond.
  destruct t; intuition congruence.
Qed.

Lemma Math_min_le_l (a b : Q) : (Math_min a b <= a)%Q.
Proof.
  unfold Math_min. destruct (Qle_bool a b) eqn:E.
  - apply Qle_refl.
  - apply Qlt_le_weak, Qnot_le_lt. intros H. apply Qle_bool_iff in H. congruence.
Qed.

Lemma Math_min_le_r (a b : Q) : (Math_min a b <= b)%Q.
Proof.
  unfold Math_min. destruct (Qle_bool a b) eqn:E.
  - apply Qle_bool_iff. exact E.
  - apply Qle_refl.
Qed.

Lemma Math_max_ge_l (a b : Q) : (a <= Math_max a b)%Q.
Proof.
  unfold Math_max. destruct (Qle_bool a b) eqn:E.
  - apply Qle_bool_iff. exact E.
  - apply Qle_refl.
Qed.

(** Clamping with [Math.max(lo, Math.min(hi, x))] lands in [[lo, hi]]. *)
Lemma Math_clamp_bounds (lo hi x : Q) :
  (lo <= hi)%Q -> (lo <= Math_max lo (Math_min hi x) <= hi)%Q.
Proof.
  intros Hlh. split; [apply Math_max_ge_l|].
  unfold Math_max. destruct (Qle_bool lo (Math_min hi x)) eqn:E.
  - apply Math_min_le_l.
  - exact Hlh.
Qed.

Lemma Math_min_Qmin (a b : Q) : (Math_min a b == Qmin a b)%Q.
Proof.
  unfold Math_min. destruct (Qle_bool a b) eqn:E.
  - apply Qle_bool_iff in E. symmetry. apply Q.min_l. exact E.
  - symmetry. apply Q.min_r. apply Qlt_le_weak, Qnot_le_lt.
    intros H. apply Qle_bool_iff in H. congruence.
Qed.

Lemma Math_max_Qmax (a b : Q) : (Math_max a b == Qmax a b)%Q.
Proof.
  unfold Math_max. destruct (Qle_bool a b) eqn:E.
  - apply Qle_bool_iff in E. symmetry. apply Q.max_r. exact E.
  - symmetry. apply Q.max_l. apply Qlt_le_weak, Qnot_le_lt.
    intros H. apply Qle_bool_iff in H. congruence.
Qed.

(** C8 *)
(** C8: [detectProblems] is a function of the snapshot alone, and for a
    snapshot with non-negative fields each category is reported exactly
    under the spec's threshold: housing iff [population > 0] and
    [population > 0.8 * residentialCapacity]; jobs iff
    [totalResidents - employed > 0] and
    [commercialCount + industrialCount < residentialCount]; power iff
    [unpoweredCount > 0]; road iff [noRoadAccess > 0]; commerce iff
    [commercialCount < 0.3 * residentialCount]. *)
Theorem detectProblems_thresholds (snap : CitySnapshot) :
  snapshot_nonneg snap ->
  (In housing (detectProblems snap) <->
     0 < population snap /\
     (QZ (population snap) > (8#10) * QZ (residentialCapacity snap))%Q) /\
  (In jobs (detectProblems snap) <->
     totalResidents snap - employed snap > 0 /\
     commercialCount snap + industrialCount snap < residentialCount snap) /\
  (In power (detectProblems snap) <-> unpoweredCount snap > 0) /\
  (In road (detectProblems snap) <-> noRoadAccess snap > 0) /\
  (In commerce (detectProblems snap) <->
     (QZ (commercialCount snap) < (3#10) * QZ (residentialCount snap))%Q).
Proof.
  intros Hnn. unfold snapshot_nonneg in Hnn.
  rewrite !in_detectProblems.
  rewrite !andb_true_iff, Qgtb_true, Qltb_true, !Z.gtb_lt, !Z.ltb_lt.
  rewrite !(Qmult_comm (_ # _)).
  rewrite !QZ_lt_scaled.
  repeat split; first [lia | tauto].
Qed.

Lemma delta_of_bool (b : bool) (P : Prop) :
  (b = true <-> P) ->
  (P -> (if b then 10 else -2) = 10) /\ (~ P -> (if b then 10 else -2) = -2).
Proof.
  intros H. destruct b; split; intros HP; try reflexivity.
  - exfalso. apply HP, H. reflexivity.
  - apply H in HP. discriminate.
Qed.

Lemma applyHappiness_bounds (prior : option Q) (delta : Z) :
  (0 <= applyHappiness prior delta <= 100)%Q.
Proof.
  unfold applyHappiness. apply Math_clamp_bounds.
  unfold Qle; simpl; lia.
Qed.

(** C4 *)
(** C4: the happiness delta of the evaluating phase is exactly [+10] when
    the request type's remediation signal improved between the before and
    after snapshots and exactly [-2] otherwise, and the happiness that
    [evaluate] writes to the city is [Math.max(0, Math.min(100, prior +
    delta))], which lies in [[0, 100]] for every prior value. *)
Theorem happiness_delta_cases (request : CitizenRequest)
    (before after : CitySnapshot) (prior : option Q) :
  (spec_signal_improved (req_type request) before after ->
     computeHappinessDelta request before after = 10) /\
  (~ spec_signal_improved (req_type request) before after ->
     computeHappinessDelta request before after = -2) /\
  (0 <= applyHappiness prior (computeHappinessDelta request before after) <= 100)%Q /\
  (forall (env : Env) (s : State),
     current s = Some request -> snapshotBefore s = Some before ->
     env_snap env = after -> cityHappiness s = prior ->
     cityHappiness (evaluate env s) =
       Some (applyHappiness prior (computeHappinessDelta request before after))).
Proof.
  split; [|split; [|split]].
  1-2: unfold computeHappinessDelta; destruct (req_type request); simpl;
       apply delta_of_bool;
       rewrite ?orb_true_iff, ?Z.gtb_lt, ?Z.ltb_lt; lia.
  - apply applyHappiness_bounds.
  - intros env s Hc Hb He Hh. unfold evaluate. rewrite Hc, Hb, He, Hh.
    destruct (hasEvaluateFn s); reflexivity.
Qed.

(** C9 *)
(** C9: on every entry into [idle] the cooldown stored by
    [transitionToIdle] equals, up to rational equality, 25 s minus
    [(100 - happiness) / 100 * 8 s], minus [min(problemCount * 2 s, 10 s)],
    minus [min(population * 170 ms, 5 s)], plus the jitter
    [(Math.random() - 0.5) * 8 s], which lies in [[-4 s, +4 s]], the whole
    clamped to [[8 s, 40 s]]; so the cooldown is always within
    [[8000, 40000]] ms. *)
Theorem cooldown_on_idle_entry (env : Env) (s : State) :
  (0 <= env_jitter env < 1)%Q ->
  let c := nextCooldownMs (transitionToIdle env s) in
  let jitter := ((env_jitter env - (1#2)) * 8000)%Q in
  (c == spec_cooldown (default (50#1) (cityHappiness s))
          (length (detectProblems (env_snap env))) (population (env_snap env)) jitter)%Q /\
  (-4000 <= jitter <= 4000)%Q /\
  (8000 <= c <= 40000)%Q.
Proof.
  intros [Hr0 Hr1] c jitter. subst c jitter. simpl.
  split; [|split].
  - unfold computeNextCooldown, spec_cooldown.
    rewrite !Math_max_Qmax, !Math_min_Qmin. reflexivity.
  - split.
    + apply Qle_trans with ((0 - (1#2)) * 8000)%Q; [unfold Qle; simpl; lia|].
      apply Qmult_le_r; [reflexivity|]. apply Qplus_le_l. exact Hr0.
    + apply Qle_trans with ((1 - (1#2)) * 8000)%Q; [|unfold Qle; simpl; lia].
      apply Qmult_le_r; [reflexivity|]. apply Qplus_le_l. apply Qlt_le_weak, Hr1.
  - unfold computeNextCooldown. apply Math_clamp_bounds. unfold Qle; simpl; lia.
Qed.

(** C2 *)
(** C2: in [request_active] with a current request and a stored
    [snapshotBefore], [checkRequestStatus()] reports [resolved = true]
    exactly when the type's ideal condition holds on the snapshot taken at
    call time or its progress condition holds against [snapshotBefore]
    (for housing: [population = 0] or [residentialCapacity >= population],
    or capacity strictly increased).  In particular a housing request
    created at [population = 50], [residentialCapacity = 40] (where
    [detectProblems] reports housing) is resolved once capacity reaches 48
    with the population unchanged, through the progress branch, the ideal
    one being false. *)
Theorem checkRequestStatus_resolution (env : Env) (s : State)
    (req : CitizenRequest) (before : CitySnapshot) :
  phase s = request_active -> current s = Some req ->
  snapshotBefore s = Some before ->
  (resolved (checkRequestStatus env s) = true <->
     ideal_of (req_type req) (env_snap env) = true \/
     progress_of (req_type req) (Some before) (env_snap env) = true) /\
  (req_type req = housing ->
     (resolved (checkRequestStatus env s) = true <->
        (population (env_snap env) = 0 \/
         residentialCapacity (env_snap env) >= population (env_snap env)) \/
        residentialCapacity (env_snap env) > residentialCapacity before)) /\
  (req_type req = housing ->
     population before = 50 -> residentialCapacity before = 40 ->
     population (env_snap env) = 50 -> residentialCapacity (env_snap env) = 48 ->
     In housing (detectProblems before) /\
     resolved (checkRequestStatus env s) = true /\
     ideal_of housing (env_snap env) = false /\
     progress_of housing (Some before) (env_snap env) = true).
Proof.
  intros Hp Hc Hb.
  assert (Hres : resolved (checkRequestStatus env s) =
                 ideal_of (req_type req) (env_snap env) ||
                 progress_of (req_type req) (Some before) (env_snap env)).
  { unfold checkRequestStatus. rewrite Hp, Hc, Hb. reflexivity. }
  split; [|split].
  - rewrite Hres, orb_true_iff. reflexivity.
  - intros Ht. rewrite Hres, Ht. simpl.
    rewrite !orb_true_iff, Z.eqb_eq, Z.geb_le, Z.gtb_lt. lia.
  - intros Ht Hpb Hcb Hpn Hcn. rewrite Hres, Ht.
    split; [apply in_detectProblems; cbn iota beta; rewrite Hpb, Hcb; reflexivity|].
    simpl. rewrite Hcb, Hpn, Hcn. repeat split; reflexivity.
Qed.

Lemma in_lookup_list {A} (l : list A) (x : A) : In x l -> exists j, l !! j = Some x.
Proof.
  induction l as [|a l IH]; simpl; [tauto|].
  intros [->|H]; [exists 0%nat; reflexivity|].
  destruct (IH H) as [j Hj]. exists (S j). exact Hj.
Qed.

Lemma filter_active_le1 (l : list CitizenRequest) :
  (forall j j' r r', l !! j = Some r -> l !! j' = Some r' ->
     is_active r = true -> is_active r' = true -> j = j') ->
  (length (List.filter is_active l) <= 1)%nat.
Proof.
  induction l as [|a l IH]; intros H; simpl; [lia|].
  destruct (is_active a) eqn:Ea.
  - destruct (List.filter is_active l) as [|c rest] eqn:F; simpl; [lia|].
    exfalso.
    assert (Hc : In c (List.filter is_active l)) by (rewrite F; left; reflexivity).
    apply filter_In in Hc as [Hin Hact].
    destruct (in_lookup_list _ _ Hin) as [j Hj].
    specialize (H 0%nat (S j) a c eq_refl Hj Ea Hact). discriminate.
  - apply IH. intros j j' r r' H1 H2 H3 H4.
    specialize (H (S j) (S j') r r' H1 H2 H3 H4). congruence.
Qed.

Lemma Inv_active_le1 (s : State) : Inv s -> (length (getActiveRequests s) <= 1)%nat.
Proof.
  intros [_ Hm]. unfold getActiveRequests. apply filter_active_le1.
  destruct (phase s).
  2: { destruct Hm as (i & r & _ & _ & _ & Honly).
       intros j j' r1 r2 H1 H2 A1 A2.
       rewrite (Honly _ _ H1 A1), (Honly _ _ H2 A2). reflexivity. }
  all: intros j j' r1 r2 H1 _ A1 _; rewrite (Hm _ _ H1) in A1; discriminate.
Qed.

Lemma Inv_init (b : bool) (h : option Q) : Inv (initState b h).
Proof.
  split; [discriminate|]. simpl. intros j r H. rewrite lookup_nil in H. discriminate.
Qed.

Lemma Inv_transitionToIdle (env : Env) (s : State) :
  evalPending s = false ->
  (forall j r, requests s !! j = Some r -> is_active r = false) ->
  Inv (transitionToIdle env s).
Proof.
  intros He Hn. split; simpl; [rewrite He; discriminate|exact Hn].
Qed.

Lemma Inv_no_pending (s : State) :
  Inv s -> phase s <> evaluating -> evalPending s = false.
Proof.
  intros [He _] Hp. destruct (evalPending s); [|reflexivity].
  exfalso. apply Hp, He. reflexivity.
Qed.

Lemma Inv_tryGenerateRequest (env : Env) (s : State) :
  Inv s -> phase s = idle -> Inv (tryGenerateRequest env s).
Proof.
  intros HI Hp. pose proof (Inv_no_pending s HI ltac:(rewrite Hp; discriminate)) as He.
  destruct HI as [_ Hm]. rewrite Hp in Hm.
  unfold tryGenerateRequest.
  destruct (Qltb _ _); [split; [rewrite He; discriminate|rewrite Hp; exact Hm]|].
  destruct (detectProblems (env_snap env)) as [|p ps];
    [split; [rewrite He; discriminate|rewrite Hp; exact Hm]|].
  split; simpl; [rewrite He; discriminate|].
  exists (length (requests s)), (createRequest (pickProblem (p :: ps) (env_pick env)) env).
  split; [reflexivity|split; [|split; [reflexivity|]]].
  - rewrite lookup_app_r by lia. rewrite Nat.sub_diag. reflexivity.
  - intros j r' Hj Ha. apply lookup_app_Some in Hj as [Hj|[Hle Hj]].
    + rewrite (Hm _ _ Hj) in Ha. discriminate.
    + destruct (j - length (requests s))%nat eqn:E; [lia|].
      simpl in Hj. rewrite lookup_nil in Hj. discriminate.
Qed.

Lemma Inv_setCurrentStatus (st : RequestStatus) (s : State) :
  st <> active -> Inv s -> phase s = request_active ->
  forall j r, setCurrentStatus st s !! j = Some r -> is_active r = false.
Proof.
  intros Hst [_ Hm] Hp. rewrite Hp in Hm.
  destruct Hm as (i & r0 & Hc & Hl & _ & Honly).
  intros j r Hj. unfold setCurrentStatus in Hj. rewrite Hc, Hl in Hj.
  apply list_lookup_insert_Some in Hj as [(_ & <- & _)|(Hne & Hj)].
  - simpl. destruct st; [congruence|reflexivity|reflexivity].
  - destruct (is_active r) eqn:A; [|reflexivity].
    exfalso. apply Hne. symmetry. exact (Honly _ _ Hj A).
Qed.

Lemma Inv_step (s s' : State) : Inv s -> step s s' -> Inv s'.
Proof.
  intros HI Hs. destruct Hs as [env s|s|env s|env s Hpend|h s].
  - (* tick *)
    unfold onCityChanged. destruct (phase s) eqn:Hp.
    + apply Inv_tryGenerateRequest; assumption.
    + exact HI.
    + pose proof (Inv_no_pending s HI ltac:(rewrite Hp; discriminate)) as He.
      destruct HI as [_ Hm]. rewrite Hp in Hm.
      destruct (settleTicksRemaining s - 1 <=? 0).
      * unfold evaluate; simpl. unfold current; simpl.
        destruct (match currentRequest s with Some i => requests s !! i | None => None end);
          [destruct (snapshotBefore s)|].
        -- destruct (hasEvaluateFn s) eqn:Hh.
           ++ split; simpl; [reflexivity|exact Hm].
           ++ unfold finishEvaluate. apply Inv_transitionToIdle; simpl; [reflexivity|exact Hm].
        -- apply Inv_transitionToIdle; simpl; [exact He|exact Hm].
        -- apply Inv_transitionToIdle; simpl; [exact He|exact Hm].
      * split; simpl; [rewrite He; discriminate|exact Hm].
    + exact HI.
  - (* markResolved *)
    unfold markResolved. destruct (phase s) eqn:Hp; try exact HI.
    destruct (currentRequest s) eqn:Hc; [|exact HI].
    pose proof (Inv_no_pending s HI ltac:(rewrite Hp; discriminate)) as He.
    split; simpl; [rewrite He; discriminate|].
    apply Inv_setCurrentStatus; [discriminate|exact HI|exact Hp].
  - (* expiry *)
    unfold expireRequest. destruct (phase s) eqn:Hp; try exact HI.
    destruct (currentRequest s) eqn:Hc; [|exact HI].
    pose proof (Inv_no_pending s HI ltac:(rewrite Hp; discriminate)) as He.
    apply Inv_transitionToIdle; simpl; [exact He|].
    apply Inv_setCurrentStatus; [discriminate|exact HI|exact Hp].
  - (* rest of evaluate() *)
    destruct HI as [Hev Hm]. specialize (Hev Hpend). rewrite Hev in Hm.
    unfold finishEvaluate. apply Inv_transitionToIdle; simpl; [reflexivity|exact Hm].
  - (* city.happiness overwritten *)
    destruct HI as [He Hm]. split; simpl; assumption.
Qed.

Lemma reachable_Inv (s : State) : reachable s -> Inv s.
Proof.
  induction 1 as [b h|s s' _ IH Hs]; [apply Inv_init|exact (Inv_step s s' IH Hs)].
Qed.

(** C1 *)
(** C1: in every reachable state of the single-slot engine (any
    interleaving of ticks, [markResolved] calls, expiry callbacks, ends of
    [evaluate] and writes of [city.happiness]) [getActiveRequests()]
    returns at most one request, and a [markResolved()] call made outside
    [request_active] leaves the state unchanged. *)
Theorem at_most_one_active_request (s : State) :
  reachable s ->
  (length (getActiveRequests s) <= 1)%nat /\
  (phase s <> request_active -> markResolved s = s).
Proof.
  intros Hr. split.
  - apply Inv_active_le1, reachable_Inv, Hr.
  - intros Hp. unfold markResolved. destruct (phase s); congruence.
Qed.

End RequestEngineFacts.

(* ================================================================== *)
(** * Properties of the disaster service *)
(* ================================================================== *)

Module DisasterFacts.
Import Disaster.

(** C6 *)
(** C6: with no active hazard and fewer than [minBuildingsForDisaster]
    (= 8) building-occupied tiles, a simulation step changes nothing and
    notifies nothing, whatever the draws (Bernoulli trial included) and
    however long ago the last hazard was. *)
Theorem no_trigger_below_min_buildings (c : City) (svc : Service) (dr : Draws) :
  activeDisaster svc = None ->
  buildingCount c < minBuildingsForDisaster ->
  simulate c svc dr = (c, svc, []).
Proof.
  intros Hn Hb. unfold simulate. rewrite Hn. unfold tryTriggerDisaster.
  apply Z.ltb_lt in Hb. rewrite Hb. reflexivity.
Qed.

(** C7 *)
(** C7: on the 4 x 4 city whose columns 2 and 3 are built up, the hazard
    triggered at epicenter (2, 1) with a 2 x 2 extent covers the four
    tiles (1,0), (1,1), (2,0), (2,1), of which only two held a building,
    yet the single summary notification reports 4 destroyed buildings. *)
Theorem destroyed_count_reports_all_tiles :
  let '(_, svc', ns) := simulate example_city example_service example_draws in
  ns = [DisasterNotice 2 1 4 4] /\
  match activeDisaster svc' with
  | Some d =>
      map (fun e => (at_x e, at_y e)) (affectedTiles d) = [(1, 0); (1, 1); (2, 0); (2, 1)] /\
      length (List.filter (fun e => hasBuilding (getTile example_city (at_x e) (at_y e)))
                          (affectedTiles d)) = 2%nat
  | None => False
  end.
Proof. vm_compute. split; [reflexivity|split; reflexivity]. Qed.

(** The progress values of a 300-tick tile under active recovery, as
    binary64 computes them: below 1 after 0 .. 59 increments, exactly 1
    after 60. *)
Lemma progress_table :
  forallb (fun k => PrimFloat.ltb (progressAfter 300 true k) 1 &&
                    negb (PrimFloat.leb 1 (progressAfter 300 true k))) (seq 0 60) = true /\
  progressAfter 300 true 60 = 1%float.
Proof. vm_compute. split; reflexivity. Qed.

Lemma progress_below_one (k : nat) :
  (k < 60)%nat ->
  PrimFloat.ltb (progressAfter 300 true k) 1 = true /\
  PrimFloat.leb 1 (progressAfter 300 true k) = false.
Proof.
  intros Hk. destruct progress_table as [Ht _].
  rewrite forallb_forall in Ht. specialize (Ht k).
  rewrite in_seq in Ht. specialize (Ht ltac:(lia)).
  apply andb_true_iff in Ht as [H1 H2]. rewrite negb_true_iff in H2. auto.
Qed.

Lemma updateTile_same (c : City) (x y : Z) (f : Tile -> Tile) :
  tiles (updateTile c x y f) x y = f (tiles c x y).
Proof. simpl. rewrite !Z.eqb_refl. reflexivity. Qed.

Lemma ticks_S (n : nat) (dr : Draws) (c : City) (svc : Service) :
  ticks (S n) dr c svc =
  (fst (fst (simulate (fst (ticks n dr c svc)) (snd (ticks n dr c svc)) dr)),
   snd (fst (simulate (fst (ticks n dr c svc)) (snd (ticks n dr c svc)) dr))).
Proof.
  simpl. destruct (ticks n dr c svc) as [c1 s1]. simpl.
  destruct (simulate c1 s1 dr) as [[c2 s2] ns]. reflexivity.
Qed.

Lemma in_zrange (lo z : Z) (n : nat) : In z (zrange lo n) <-> lo <= z < lo + Z.of_nat n.
Proof.
  revert lo. induction n as [|n IH]; intros lo; simpl; [lia|].
  rewrite IH. lia.
Qed.

Lemma in_coords (x y lx hx ly hy : Z) :
  lx <= x <= hx -> ly <= y <= hy -> In (x, y) (coords lx hx ly hy).
Proof.
  intros Hx Hy. unfold coords. apply in_flat_map. exists x. split.
  - apply in_zrange. rewrite Z2Nat.id by lia. lia.
  - apply in_map_iff. exists y. split; [reflexivity|].
    apply in_zrange. rewrite Z2Nat.id by lia. lia.
Qed.

Lemma triggerTile_size (rec : Z -> Z -> Z) (st : City * list AffectedTile) (xy : Z * Z) :
  size (fst (triggerTile rec st xy)) = size (fst st).
Proof.
  destruct st as [c acc], xy as [x y]. unfold triggerTile.
  destruct (getTile c x y) as [t|]; [destruct (building t)|]; reflexivity.
Qed.

Lemma triggerTile_grows (rec : Z -> Z -> Z) (st : City * list AffectedTile) (xy : Z * Z) :
  snd st <> [] -> snd (triggerTile rec st xy) <> [].
Proof.
  destruct st as [c acc], xy as [x y]. unfold triggerTile. simpl. intros H.
  destruct (getTile c x y) as [t|]; [|exact H].
  destruct (building t); simpl; intros E; apply app_eq_nil in E as [_ E]; discriminate.
Qed.

Lemma triggerTile_in_bounds (rec : Z -> Z -> Z) (st : City * list AffectedTile) (x y : Z) :
  in_bounds (fst st) x y = true -> snd (triggerTile rec st (x, y)) <> [].
Proof.
  destruct st as [c acc]. unfold triggerTile, getTile. simpl. intros H. rewrite H.
  destruct (building (tiles c x y)); simpl; intros E; apply app_eq_nil in E as [_ E];
    discriminate.
Qed.

Lemma fold_trigger_nonempty (rec : Z -> Z -> Z) (l : list (Z * Z)) :
  forall st, (snd st <> [] \/ exists x y, In (x, y) l /\ in_bounds (fst st) x y = true) ->
  snd (fold_left (triggerTile rec) l st) <> [].
Proof.
  induction l as [|a l IH]; intros st H; simpl.
  - destruct H as [H|(x & y & [] & _)]. exact H.
  - apply IH. destruct H as [H|(x & y & [->|Hin] & Hb)].
    + left. apply triggerTile_grows, H.
    + left. apply triggerTile_in_bounds, Hb.
    + right. exists x, y. split; [exact Hin|].
      unfold in_bounds in *. rewrite triggerTile_size. exact Hb.
Qed.

Lemma triggerDisaster_nonempty (c : City) (svc : Service) (ex ey sx sy : Z)
    (rec : Z -> Z -> Z) :
  in_bounds c ex ey = true -> 1 <= sx -> 1 <= sy ->
  DInv (snd (fst (triggerDisaster c svc ex ey sx sy rec))).
Proof.
  intros Hb Hsx Hsy. unfold triggerDisaster.
  pose proof (fold_trigger_nonempty rec
    (coords (Z.max 0 (ex - sx / 2)) (Z.min (size c - 1) (Z.max 0 (ex - sx / 2) + sx - 1))
            (Z.max 0 (ey - sy / 2)) (Z.min (size c - 1) (Z.max 0 (ey - sy / 2) + sy - 1)))
    (c, [])) as Hf.
  destruct (fold_left _ _ _) as [c' affected]. simpl in Hf.
  intros d Hd. simpl in Hd. injection Hd as <-. simpl. apply Hf.
  right. exists ex, ey. split; [|exact Hb].
  unfold in_bounds in Hb. rewrite !andb_true_iff, !Z.leb_le, !Z.ltb_lt in Hb.
  assert (0 <= sx / 2) by (apply Z.div_pos; lia).
  assert (2 * (sx / 2) <= sx) by (apply Z.mul_div_le; lia).
  assert (0 <= sy / 2) by (apply Z.div_pos; lia).
  assert (2 * (sy / 2) <= sy) by (apply Z.mul_div_le; lia).
  apply in_coords; lia.
Qed.

Lemma buildingTiles_in_bounds (c : City) (x y : Z) :
  In (x, y) (buildingTiles c) -> in_bounds c x y = true.
Proof.
  unfold buildingTiles. rewrite filter_In. intros [_ H].
  unfold hasBuilding, getTile in H. destruct (in_bounds c x y); [reflexivity|discriminate].
Qed.

Lemma simulate_DInv (c : City) (svc : Service) (dr : Draws) :
  wf_draws c dr -> DInv svc -> DInv (snd (fst (simulate c svc dr))).
Proof.
  intros (_ & Hx & Hy & _) HI. unfold simulate.
  destruct (activeDisaster svc) as [d0|] eqn:Ha.
  - unfold advanceRecovery. destruct (recoverAll c (affectedTiles d0)) as [c' flags].
    destruct (map fst (List.filter _ flags)) as [|e rest]; simpl;
      intros d Hd; [discriminate|injection Hd as <-; simpl; discriminate].
  - assert (Hnone : DInv svc) by (intros d Hd; congruence).
    unfold tryTriggerDisaster.
    destruct (buildingCount c <? minBuildingsForDisaster); [exact Hnone|].
    destruct (tooSoon c svc); [exact Hnone|].
    destruct (PrimFloat.ltb disasterChance (d_chance dr)); [exact Hnone|].
    destruct (nth_error (buildingTiles c) (d_epicenter dr)) as [[ex ey]|] eqn:Hn;
      [|exact Hnone].
    apply triggerDisaster_nonempty.
    + apply buildingTiles_in_bounds. eapply nth_error_In. exact Hn.
    + unfold minAffectedSize. lia.
    + unfold minAffectedSize. lia.
Qed.

Lemma sys_reachable_DInv (st : City * Service) : sys_reachable st -> DInv (snd st).
Proof.
  induction 1 as [c n r|st st' _ IH Hs].
  - intros d Hd. discriminate.
  - destruct Hs as [c svc dr c' svc' ns Hw Hsim|c svc x y|c c' svc]; simpl in *; [|exact IH|exact IH].
    pose proof (simulate_DInv c svc dr Hw IH) as H. rewrite Hsim in H. exact H.
Qed.

(** C10 *)
(** C10: in every reachable state of the disaster service (ticks with any
    admissible draws, [recover_tile] commands, changes of the city by other
    code) an active hazard lists at least one affected tile, so
    [getDisasterInfo()] answers with a positive tile count, the divisor of
    its average progress. *)
Theorem active_hazard_has_affected_tiles (c : City) (svc : Service) :
  sys_reachable (c, svc) ->
  forall d, activeDisaster svc = Some d ->
  affectedTiles d <> [] /\
  exists n avg, getDisasterInfo c svc = Some (n, avg) /\
                n = length (affectedTiles d) /\ (0 < n)%nat.
Proof.
  intros Hr d Hd.
  pose proof (sys_reachable_DInv _ Hr d Hd) as Hne. split; [exact Hne|].
  unfold getDisasterInfo. rewrite Hd.
  eexists; eexists; split; [reflexivity|split; [reflexivity|]].
  destruct (affectedTiles d); [congruence|simpl; lia].
Qed.

End DisasterFacts.

(* ================================================================== *)
(** * Properties of the speech coordinator *)
(* ================================================================== *)

Module SpeechFacts.
Import Speech.

(** C3 *)
(** C3 (refuted, a defect of the failsafe): the mayor is speaking, calls 1
    and 2 of [waitForSilence()] are queued, and the failsafe of call 1
    fires.  It clears both flags ("forcing silence") but resolves only
    waiter 1 and never calls [flushWaiters]: waiter 2, queued at that
    moment, is neither resolved nor removed although nobody is speaking,
    and a call 3 made afterwards resolves at once, ahead of it. *)
Theorem failsafe_keeps_other_waiters :
  let s0 := waitForSilence 2 (waitForSilence 1 (mkState true false [] [])) in
  let s1 := failsafe 1 s0 in
  let s2 := waitForSilence 3 s1 in
  waiters s0 = [1; 2]%nat /\
  mayorSpeaking s1 = false /\ citizenSpeaking s1 = false /\
  waiters s1 = [2]%nat /\ ~ In 2%nat (resolvedWaiters s1) /\
  resolvedWaiters s2 = [1; 3]%nat /\ waiters s2 = [2]%nat.
Proof.
  vm_compute. split; [reflexivity|split; [reflexivity|split; [reflexivity|split; [reflexivity|]]]].
  split; [intros [H|[]]; discriminate H|split; reflexivity].
Qed.

End SpeechFacts.

(* ================================================================== *)
(** * Further properties of the speech coordinator *)
(* ================================================================== *)

Module SpeechExtra.
Import Speech.

Lemma flush_pool (s : State) :
  Permutation (waiters (flushWaiters s) ++ resolvedWaiters (flushWaiters s))
              (waiters s ++ resolvedWaiters s).
Proof.
  unfold flushWaiters. destruct (mayorSpeaking s || citizenSpeaking s); simpl.
  - reflexivity.
  - apply Permutation_app_comm.
Qed.

Lemma removeFirst_perm (w : nat) (l : list nat) :
  existsb (Nat.eqb w) l = true -> Permutation l (w :: removeFirst w l).
Proof.
  induction l as [|a l IH]; simpl; [discriminate|].
  destruct (Nat.eqb a w) eqn:E.
  - apply Nat.eqb_eq in E. subst. reflexivity.
  - rewrite Nat.eqb_sym, E. simpl. intros H.
    rewrite (IH H) at 1. apply perm_swap.
Qed.

(** One event moves waiters between the queue and the resolved list and
    adds the new call, if any. *)
Lemma event_pool (s : State) (e : Event) :
  Permutation (waiters (applyEvent s e) ++ resolvedWaiters (applyEvent s e))
              ((waiters s ++ resolvedWaiters s) ++ calls [e]).
Proof.
  destruct e as [b|b|w|w]; simpl; rewrite ?app_nil_r.
  - unfold setMayorSpeaking. destruct b; [reflexivity|].
    etransitivity; [apply flush_pool|]. reflexivity.
  - unfold setCitizenSpeaking. destruct b; [reflexivity|].
    etransitivity; [apply flush_pool|]. reflexivity.
  - unfold waitForSilence. destruct (negb (mayorSpeaking s) && negb (citizenSpeaking s)); simpl.
    + rewrite app_assoc. reflexivity.
    + rewrite <- !app_assoc. apply Permutation_app_head.
      apply Permutation_app_comm.
  - unfold failsafe.
    destruct (existsb (Nat.eqb w) (waiters s)) eqn:E; simpl; [|reflexivity].
    rewrite (removeFirst_perm w (waiters s) E) at 2. simpl.
    rewrite app_assoc. symmetry. apply Permutation_cons_append.
Qed.

Lemma fold_pool (evs : list Event) (s : State) :
  Permutation (waiters (fold_left applyEvent evs s) ++ resolvedWaiters (fold_left applyEvent evs s))
              ((waiters s ++ resolvedWaiters s) ++ calls evs).
Proof.
  revert s. induction evs as [|e evs IH]; intros s; simpl.
  - rewrite app_nil_r. reflexivity.
  - rewrite IH, event_pool. rewrite <- app_assoc.
    apply Permutation_app_head. destruct e; reflexivity.
Qed.

Lemma wf_events_nodup (evs : list Event) (seen : list nat) :
  wf_events seen evs = true -> NoDup seen -> NoDup (seen ++ calls evs).
Proof.
  revert seen. induction evs as [|e evs IH]; intros seen Hw Hn; simpl.
  - rewrite app_nil_r. exact Hn.
  - destruct e as [b|b|w|w]; simpl in Hw.
    + apply IH; assumption.
    + apply IH; assumption.
    + apply andb_true_iff in Hw as [Hf Hw]. apply negb_true_iff in Hf.
      replace (seen ++ w :: calls evs) with ((seen ++ [w]) ++ calls evs)
        by (rewrite <- app_assoc; reflexivity).
      apply IH; [exact Hw|].
      apply NoDup_app. split; [exact Hn|split; [|apply NoDup_singleton]].
      intros x Hx Hxw. apply list_elem_of_singleton in Hxw. subst x.
      apply list_elem_of_In in Hx.
      assert (existsb (Nat.eqb w) seen = true) by (apply existsb_exists; exists w;
        split; [exact Hx|apply Nat.eqb_refl]).
      congruence.
    + apply andb_true_iff in Hw as [_ Hw]. apply IH; assumption.
Qed.

(** X1 *)
(** X1: whatever the interleaving of setter calls, [waitForSilence()]
    calls and failsafe timers, every call's waiter is at any time either
    still queued or resolved, and no waiter is resolved twice: the queue
    and the resolved waiters together are a permutation of the calls
    made, and the resolved waiters are pairwise distinct. *)
Theorem waiters_never_lost_or_repeated (evs : list Event) :
  wf_events [] evs = true ->
  Permutation (waiters (run evs) ++ resolvedWaiters (run evs)) (calls evs) /\
  NoDup (resolvedWaiters (run evs)).
Proof.
  intros Hw. pose proof (fold_pool evs speechInit) as Hp. simpl in Hp.
  fold (run evs) in Hp. split; [exact Hp|].
  pose proof (wf_events_nodup evs [] Hw NoDup_nil_2) as Hn. simpl in Hn.
  rewrite <- Hp in Hn. apply NoDup_app in Hn as (_ & _ & Hn). exact Hn.
Qed.

(** Without failsafe firings: the resolved waiters followed by the queue
    are the calls in order, and silence means an empty queue. *)
Lemma fifo_step (s : State) (e : Event) :
  is_timeout e = false ->
  (negb (mayorSpeaking s) && negb (citizenSpeaking s) = true -> waiters s = []) ->
  resolvedWaiters (applyEvent s e) ++ waiters (applyEvent s e) =
    (resolvedWaiters s ++ waiters s) ++ calls [e] /\
  (negb (mayorSpeaking (applyEvent s e)) && negb (citizenSpeaking (applyEvent s e)) = true ->
   waiters (applyEvent s e) = []).
Proof.
  intros He Hq. destruct e as [b|b|w|w]; simpl in He |- *; [| | |discriminate].
  - unfold setMayorSpeaking, flushWaiters. destruct b; simpl.
    + rewrite app_nil_r. split; [reflexivity|intros H; discriminate H].
    + destruct (citizenSpeaking s); simpl.
      * rewrite app_nil_r. split; [reflexivity|intros H; discriminate H].
      * rewrite !app_nil_r. split; reflexivity.
  - unfold setCitizenSpeaking, flushWaiters. destruct b; simpl.
    + rewrite app_nil_r, andb_false_r. split; [reflexivity|intros H; discriminate H].
    + rewrite orb_false_r. destruct (mayorSpeaking s); simpl.
      * rewrite app_nil_r. split; [reflexivity|intros H; discriminate H].
      * rewrite !app_nil_r. split; reflexivity.
  - unfold waitForSilence.
    destruct (negb (mayorSpeaking s) && negb (citizenSpeaking s)) eqn:E; simpl.
    + rewrite (Hq eq_refl). rewrite !app_nil_r. split; [reflexivity|intros _; reflexivity].
    + try rewrite E. split; [rewrite !app_assoc; reflexivity|intros H; discriminate H].
Qed.

Lemma fifo_invariant (evs : list Event) (s : State) :
  forallb (fun e => negb (is_timeout e)) evs = true ->
  (negb (mayorSpeaking s) && negb (citizenSpeaking s) = true -> waiters s = []) ->
  resolvedWaiters (fold_left applyEvent evs s) ++ waiters (fold_left applyEvent evs s) =
    (resolvedWaiters s ++ waiters s) ++ calls evs /\
  (negb (mayorSpeaking (fold_left applyEvent evs s)) &&
   negb (citizenSpeaking (fold_left applyEvent evs s)) = true ->
   waiters (fold_left applyEvent evs s) = []).
Proof.
  revert s. induction evs as [|e evs IH]; intros s Ht Hq.
  - simpl. rewrite app_nil_r. split; [reflexivity|exact Hq].
  - simpl in Ht. apply andb_true_iff in Ht as [He Ht]. apply negb_true_iff in He.
    destruct (fifo_step s e He Hq) as [H1 H2].
    destruct (IH (applyEvent s e) Ht H2) as [H3 H4].
    change (fold_left applyEvent (e :: evs) s) with (fold_left applyEvent evs (applyEvent s e)).
    split; [|exact H4]. rewrite H3, H1, <- !app_assoc. f_equal. f_equal.
    destruct e; reflexivity.
Qed.

(** X2 *)
(** X2: as long as no failsafe timer fires, waiters are released in call
    order: at any time the resolved waiters followed by the queue are
    exactly the [waitForSilence()] calls, in the order they were made. *)
Theorem waiters_resolved_in_call_order (evs : list Event) :
  forallb (fun e => negb (is_timeout e)) evs = true ->
  resolvedWaiters (run evs) ++ waiters (run evs) = calls evs.
Proof.
  intros Ht. destruct (fifo_invariant evs speechInit Ht (fun _ => eq_refl)) as [H _].
  exact H.
Qed.

(** X3 *)
(** X3: as long as no failsafe timer fires, no waiter is ever left
    pending while both speakers are silent: whenever [mayorSpeaking] and
    [citizenSpeaking] are both false the queue is empty. *)
Theorem silence_leaves_no_waiter (evs : list Event) :
  forallb (fun e => negb (is_timeout e)) evs = true ->
  mayorSpeaking (run evs) = false -> citizenSpeaking (run evs) = false ->
  waiters (run evs) = [].
Proof.
  intros Ht Hm Hc. destruct (fifo_invariant evs speechInit Ht (fun _ => eq_refl)) as [_ H].
  apply H. unfold run in *. rewrite Hm, Hc. reflexivity.
Qed.

End SpeechExtra.

(* ================================================================== *)
(** * Further properties of the disaster service *)
(* ================================================================== *)

Module DisasterExtra.
Import Disaster DisasterFacts.

Lemma of_to_nat_max (n : Z) : Z.of_nat (Z.to_nat n) = Z.max 0 n.
Proof. destruct n as [|p|p]; simpl; [reflexivity|apply positive_nat_Z|reflexivity]. Qed.

Lemma in_coords_iff (x y lx hx ly hy : Z) :
  In (x, y) (coords lx hx ly hy) <-> lx <= x <= hx /\ ly <= y <= hy.
Proof.
  split.
  - unfold coords. rewrite in_flat_map.
    intros (x' & Hx & Hy). apply in_map_iff in Hy as (y' & Heq & Hy).
    injection Heq as <- <-. apply in_zrange in Hx, Hy.
    rewrite of_to_nat_max in Hx, Hy. lia.
  - intros [Hx Hy]. apply in_coords; assumption.
Qed.

Lemma zrange_nodup (lo : Z) (n : nat) : NoDup (zrange lo n).
Proof.
  revert lo. induction n as [|n IH]; intros lo; simpl; constructor.
  - rewrite list_elem_of_In, in_zrange. lia.
  - apply IH.
Qed.

Lemma nodup_map_pair (x : Z) (ys : list Z) : NoDup ys -> NoDup (map (fun y => (x, y)) ys).
Proof.
  induction ys as [|y ys IH]; intros Hn; simpl; [constructor|].
  apply NoDup_cons in Hn as [Hy Hn]. constructor; [|apply IH, Hn].
  rewrite list_elem_of_In, in_map_iff. intros (y' & E & Hin). injection E as ->.
  apply Hy, list_elem_of_In, Hin.
Qed.

Lemma coords_nodup (lx hx ly hy : Z) : NoDup (coords lx hx ly hy).
Proof.
  unfold coords. generalize (zrange_nodup lx (Z.to_nat (hx - lx + 1))).
  generalize (zrange lx (Z.to_nat (hx - lx + 1))) as xs.
  induction xs as [|x xs IH]; intros Hn; simpl; [constructor|].
  inversion Hn as [|? ? Hx Hn']; subst.
  apply NoDup_app. split; [|split].
  - apply nodup_map_pair, zrange_nodup.
  - intros [a b] Ha Hb. apply list_elem_of_In in Ha, Hb.
    apply in_map_iff in Ha as (y1 & E1 & _). injection E1 as <- _.
    apply in_flat_map in Hb as (x' & Hx' & Hb). apply in_map_iff in Hb as (y2 & E2 & _).
    injection E2 as -> _. apply Hx, list_elem_of_In, Hx'.
  - apply IH. exact Hn'.
Qed.

Lemma in_bounds_size (c c' : City) : size c' = size c -> in_bounds c' = in_bounds c.
Proof. intros H. unfold in_bounds. rewrite H. reflexivity. Qed.

Lemma updateTile_other (c : City) (x y x' y' : Z) (f : Tile -> Tile) :
  (x', y') <> (x, y) -> tiles (updateTile c x y f) x' y' = tiles c x' y'.
Proof.
  intros H. simpl. destruct ((x' =? x) && (y' =? y)) eqn:E; [|reflexivity].
  apply andb_true_iff in E as [E1 E2]. apply Z.eqb_eq in E1, E2. subst. congruence.
Qed.

(** One iteration of the loop of [triggerDisaster]. *)
Lemma triggerTile_spec (rec : Z -> Z -> Z) (c : City) (acc : list AffectedTile) (x' y' : Z) :
  size (fst (triggerTile rec (c, acc) (x', y'))) = size c /\
  simTime (fst (triggerTile rec (c, acc) (x', y'))) = simTime c /\
  snd (triggerTile rec (c, acc) (x', y')) =
    acc ++ (if in_bounds c x' y' then [mkAffected x' y' (minRecoveryTicks + rec x' y')] else []) /\
  (forall x y, (x, y) <> (x', y') ->
     tiles (fst (triggerTile rec (c, acc) (x', y'))) x y = tiles c x y) /\
  (in_bounds c x' y' = false -> triggerTile rec (c, acc) (x', y') = (c, acc)) /\
  (in_bounds c x' y' = true ->
     building (tiles (fst (triggerTile rec (c, acc) (x', y'))) x' y') = None /\
     damaged (tiles (fst (triggerTile rec (c, acc) (x', y'))) x' y') = true /\
     recoveryProgress (tiles (fst (triggerTile rec (c, acc) (x', y'))) x' y') = 0%float).
Proof.
  unfold triggerTile, getTile.
  destruct (in_bounds c x' y') eqn:Hb.
  - destruct (building (tiles c x' y')) eqn:Hbd.
    + split; [reflexivity|split; [reflexivity|split; [reflexivity|split; [|split]]]].
      * intros x y Hne. cbn [fst]. rewrite updateTile_other by exact Hne.
        unfold bulldoze. apply updateTile_other. exact Hne.
      * intros H; discriminate H.
      * intros _. cbn [fst]. rewrite updateTile_same. unfold bulldoze.
        rewrite updateTile_same. repeat split; reflexivity.
    + split; [reflexivity|split; [reflexivity|split; [reflexivity|split; [|split]]]].
      * intros x y Hne. cbn [fst]. apply updateTile_other. exact Hne.
      * intros H; discriminate H.
      * intros _. cbn [fst]. rewrite updateTile_same. cbn [building damaged recoveryProgress].
        rewrite Hbd. repeat split; reflexivity.
  - cbn [fst snd]. rewrite app_nil_r.
    split; [reflexivity|split; [reflexivity|split; [reflexivity|split; [|split]]]].
    + intros x y _. reflexivity.
    + intros _. reflexivity.
    + intros H; discriminate H.
Qed.

(** The whole loop of [triggerDisaster] over a list of coordinates. *)
Lemma fold_trigger_spec (rec : Z -> Z -> Z) (l : list (Z * Z)) :
  forall (c : City) (acc : list AffectedTile),
  size (fst (fold_left (triggerTile rec) l (c, acc))) = size c /\
  simTime (fst (fold_left (triggerTile rec) l (c, acc))) = simTime c /\
  snd (fold_left (triggerTile rec) l (c, acc)) =
    acc ++ map (fun xy => mkAffected (fst xy) (snd xy) (minRecoveryTicks + rec (fst xy) (snd xy)))
               (List.filter (fun xy => in_bounds c (fst xy) (snd xy)) l) /\
  (forall x y, ~ In (x, y) l -> tiles (fst (fold_left (triggerTile rec) l (c, acc))) x y = tiles c x y) /\
  (forall x y, In (x, y) l -> in_bounds c x y = true ->
     building (tiles (fst (fold_left (triggerTile rec) l (c, acc))) x y) = None /\
     damaged (tiles (fst (fold_left (triggerTile rec) l (c, acc))) x y) = true /\
     recoveryProgress (tiles (fst (fold_left (triggerTile rec) l (c, acc))) x y) = 0%float).
Proof.
  induction l as [|[x' y'] l IH]; intros c acc.
  - simpl. rewrite app_nil_r.
    split; [reflexivity|split; [reflexivity|split; [reflexivity|split]]].
    + intros x y _. reflexivity.
    + intros x y [].
  - cbn [fold_left].
    destruct (triggerTile_spec rec c acc x' y') as (Hs1 & Ht1 & Ha1 & Hu1 & Hn1 & Hd1).
    destruct (triggerTile rec (c, acc) (x', y')) as [c1 acc1] eqn:E1.
    cbn [fst snd] in Hs1, Ht1, Ha1, Hu1, Hd1.
    destruct (IH c1 acc1) as (Hs & Ht & Ha & Hu & Hd).
    rewrite (in_bounds_size c c1 Hs1) in Ha, Hd.
    split; [congruence|split; [congruence|split; [|split]]].
    + rewrite Ha, Ha1. cbn [List.filter fst snd].
      destruct (in_bounds c x' y'); simpl; rewrite <- app_assoc; reflexivity.
    + intros x y Hnin. rewrite Hu.
      * apply Hu1. intros E. apply Hnin. left. congruence.
      * intros Hin. apply Hnin. right. exact Hin.
    + intros x y Hin Hb.
      destruct (in_dec (fun a b => decide (a = b)) (x, y) l) as [Hl|Hl].
      * apply Hd; assumption.
      * destruct Hin as [E|Hin]; [|contradiction].
        injection E as <- <-. rewrite Hu by exact Hl. apply Hd1. exact Hb.
Qed.

Lemma map_coord_affected (rec : Z -> Z -> Z) (l : list (Z * Z)) :
  map coord (map (fun xy => mkAffected (fst xy) (snd xy) (minRecoveryTicks + rec (fst xy) (snd xy))) l) = l.
Proof. induction l as [|[x y] l IH]; simpl; [reflexivity|]. rewrite IH. reflexivity. Qed.

(** X4 *)
(** X4: [triggerDisaster] records the new hazard with its epicenter and
    the current tick as [lastDisasterTick], and every tile it lists lies
    on the grid and is left without a building, damaged, with recovery
    progress 0 and a recovery duration in [[300, 600]] ticks (for
    duration draws in [[0, 300]]). *)
Theorem trigger_damages_affected_tiles (c : City) (svc : Service) (ex ey sx sy : Z)
    (rec : Z -> Z -> Z) :
  (forall x y, 0 <= rec x y <= maxRecoveryTicks - minRecoveryTicks) ->
  let '(c', svc', _) := triggerDisaster c svc ex ey sx sy rec in
  lastDisasterTick svc' = Some (simTime c) /\
  exists d, activeDisaster svc' = Some d /\ epicenterX d = ex /\ epicenterY d = ey /\
    forall e, In e (affectedTiles d) ->
      in_bounds c (at_x e) (at_y e) = true /\
      building (tiles c' (at_x e) (at_y e)) = None /\
      damaged (tiles c' (at_x e) (at_y e)) = true /\
      recoveryProgress (tiles c' (at_x e) (at_y e)) = 0%float /\
      minRecoveryTicks <= totalRecoveryTicks e <= maxRecoveryTicks.
Proof.
  intros Hrec. unfold triggerDisaster.
  match goal with |- context [fold_left (triggerTile rec) ?l (c, [])] =>
    destruct (fold_trigger_spec rec l c []) as (_ & Ht & Ha & _ & Hd);
    destruct (fold_left (triggerTile rec) l (c, [])) as [c' affected] end.
  cbn [fst snd] in Ht, Ha, Hd. cbn. split; [rewrite Ht; reflexivity|].
  eexists; split; [reflexivity|split; [reflexivity|split; [reflexivity|]]].
  intros e He. rewrite Ha in He. simpl in He.
  apply in_map_iff in He as ([x y] & <- & Hin). apply filter_In in Hin as [Hin Hb].
  cbn [fst snd at_x at_y totalRecoveryTicks] in *.
  destruct (Hd x y Hin Hb) as (H1 & H2 & H3).
  specialize (Hrec x y). unfold minRecoveryTicks, maxRecoveryTicks in *.
  repeat split; try assumption; lia.
Qed.

(** X5 *)
(** X5: the tiles a hazard lists are pairwise distinct, and they are
    exactly the grid tiles of the [sizeX] x [sizeY] window whose corner is
    [(max(0, epicenterX - floor(sizeX / 2)), max(0, epicenterY -
    floor(sizeY / 2)))]: near the top or left border the window is shifted
    to stay full size, near the bottom or right border it is cut. *)
Theorem affected_tiles_are_window (c : City) (svc : Service) (ex ey sx sy : Z)
    (rec : Z -> Z -> Z) :
  let '(_, svc', _) := triggerDisaster c svc ex ey sx sy rec in
  exists d, activeDisaster svc' = Some d /\
    NoDup (map coord (affectedTiles d)) /\
    forall x y, In (x, y) (map coord (affectedTiles d)) <->
      in_bounds c x y = true /\
      startOf ex sx <= x < startOf ex sx + sx /\
      startOf ey sy <= y < startOf ey sy + sy.
Proof.
  unfold triggerDisaster.
  match goal with |- context [fold_left (triggerTile rec) ?l (c, [])] =>
    destruct (fold_trigger_spec rec l c []) as (_ & _ & Ha & _ & _);
    destruct (fold_left (triggerTile rec) l (c, [])) as [c' affected] end.
  cbn [fst snd] in Ha. cbn. eexists; split; [reflexivity|].
  rewrite Ha. simpl. rewrite map_coord_affected. split.
  - apply NoDup_ListNoDup, List.NoDup_filter, NoDup_ListNoDup, coords_nodup.
  - intros x y. rewrite filter_In, in_coords_iff. cbn [fst snd].
    unfold in_bounds, startOf. rewrite !andb_true_iff, !Z.leb_le, !Z.ltb_lt.
    lia.
Qed.

Lemma triggerDisaster_frame (c : City) (svc : Service) (ex ey sx sy : Z)
    (rec : Z -> Z -> Z) :
  let '(c', _, _) := triggerDisaster c svc ex ey sx sy rec in
  size c' = size c /\ simTime c' = simTime c /\
  forall x y, ~ (startOf ex sx <= x < startOf ex sx + sx /\
                 startOf ey sy <= y < startOf ey sy + sy) ->
    tiles c' x y = tiles c x y.
Proof.
  unfold triggerDisaster.
  match goal with |- context [fold_left (triggerTile rec) ?l (c, [])] =>
    destruct (fold_trigger_spec rec l c []) as (Hs & Ht & _ & Hu & _);
    destruct (fold_left (triggerTile rec) l (c, [])) as [c' affected] end.
  cbn [fst snd] in Hs, Ht, Hu. cbn. split; [exact Hs|split; [exact Ht|]].
  intros x y Hout. apply Hu. rewrite in_coords_iff. unfold startOf in Hout. lia.
Qed.

(** X6 *)
(** X6: [triggerDisaster] changes no tile outside that window (tiles of
    the window that are off the grid included), and keeps the grid size
    and the clock. *)
Theorem trigger_spares_other_tiles (c : City) (svc : Service) (ex ey sx sy : Z)
    (rec : Z -> Z -> Z) :
  let '(c', _, _) := triggerDisaster c svc ex ey sx sy rec in
  size c' = size c /\ simTime c' = simTime c /\
  forall x y, ~ (startOf ex sx <= x < startOf ex sx + sx /\
                 startOf ey sy <= y < startOf ey sy + sy) ->
    tiles c' x y = tiles c x y.
Proof. exact (triggerDisaster_frame c svc ex ey sx sy rec). Qed.

(** X7 *)
(** X7: [recoverTile] modifies the city only when it reports success, which
    happens only for a tile listed by the active hazard and not yet under
    active recovery; it then sets that tile's [activeRecovery] flag and
    nothing else, and a repeated call for the same tile fails. *)
Theorem recoverTile_effect (c : City) (svc : Service) (x y : Z) :
  let '(c', ok) := recoverTile c svc x y in
  (ok = false -> c' = c) /\
  (ok = true ->
     (exists d e, activeDisaster svc = Some d /\ In e (affectedTiles d) /\
                  coord e = (x, y) /\ activeRecovery (tiles c x y) = false) /\
     tiles c' x y = mkTile (building (tiles c x y)) (damaged (tiles c x y))
                           (recoveryProgress (tiles c x y)) true /\
     (forall x' y', (x', y') <> (x, y) -> tiles c' x' y' = tiles c x' y') /\
     size c' = size c /\ simTime c' = simTime c /\
     snd (recoverTile c' svc x y) = false).
Proof.
  unfold recoverTile.
  destruct (activeDisaster svc) as [d|] eqn:Hd;
    [|split; [reflexivity|intros H; discriminate H]].
  cbv beta iota.
  match goal with |- context [List.find ?f (affectedTiles d)] =>
    destruct (List.find f (affectedTiles d)) as [e|] eqn:Hf end;
    [|split; [reflexivity|intros H; discriminate H]].
  cbv beta iota.
  pose proof (find_some _ _ Hf) as [Hin Hxy].
  apply andb_true_iff in Hxy as [Hx Hy]. apply Z.eqb_eq in Hx, Hy. rewrite Hx, Hy.
  destruct (activeRecovery (tiles c x y)) eqn:Ha;
    [split; [reflexivity|intros H; discriminate H]|].
  split; [intros H; discriminate H|intros _].
  split; [exists d, e; unfold coord; rewrite Hx, Hy; auto|].
  split; [rewrite updateTile_same; reflexivity|].
  split; [intros x' y' Hne; apply updateTile_other; exact Hne|].
  split; [reflexivity|split; [reflexivity|]].
  rewrite updateTile_same. reflexivity.
Qed.

Lemma updateTile_building (c : City) (x0 y0 x y : Z) (f : Tile -> Tile) :
  (forall t, building (f t) = building t) ->
  building (tiles (updateTile c x0 y0 f) x y) = building (tiles c x y).
Proof.
  intros H. simpl. destruct ((x =? x0) && (y =? y0)) eqn:E; [|reflexivity].
  apply andb_true_iff in E as [E1 E2]. apply Z.eqb_eq in E1, E2. subst. apply H.
Qed.

Lemma recoverAll_spec (l : list AffectedTile) :
  forall c, map fst (snd (recoverAll c l)) = l /\
    size (fst (recoverAll c l)) = size c /\ simTime (fst (recoverAll c l)) = simTime c /\
    (forall x y, building (tiles (fst (recoverAll c l)) x y) = building (tiles c x y)).
Proof.
  induction l as [|e l IH]; intros c; simpl; [auto|].
  destruct (recoverEntry c e) as [c1 r] eqn:E1.
  assert (H1 : size c1 = size c /\ simTime c1 = simTime c /\
               forall x y, building (tiles c1 x y) = building (tiles c x y)).
  { unfold recoverEntry in E1.
    destruct (PrimFloat.leb 1 _); injection E1 as <- _;
      (split; [reflexivity|split; [reflexivity|]]); intros x y;
      rewrite ?updateTile_building by reflexivity; reflexivity. }
  destruct (IH c1) as (Ha & Hs & Ht & Hb).
  destruct (recoverAll c1 l) as [c2 rs]. simpl in *.
  split; [rewrite Ha; reflexivity|].
  destruct H1 as (Hs1 & Ht1 & Hb1).
  split; [congruence|split; [congruence|]]. intros x y. rewrite Hb. apply Hb1.
Qed.

Lemma filter_fst_sublist (flags : list (AffectedTile * bool)) :
  sublist (map fst (List.filter (fun p => negb (snd p)) flags)) (map fst flags).
Proof.
  induction flags as [|[e r] flags IH]; simpl; [constructor|].
  destruct r; simpl; constructor; exact IH.
Qed.

(** X8 *)
(** X8: while a hazard is active a simulation tick never starts another
    one: it keeps [lastDisasterTick], never adds or rebuilds a building,
    and either ends the hazard (notifying [RecoveryComplete] when the
    callback is set) or keeps the same epicenter with a non-empty, ordered
    sub-list of the affected tiles and no notification. *)
Theorem active_tick_only_recovers (c : City) (svc : Service) (dr : Draws) (d : ActiveDisaster) :
  activeDisaster svc = Some d ->
  let '(c', svc', ns) := simulate c svc dr in
  lastDisasterTick svc' = lastDisasterTick svc /\
  size c' = size c /\ simTime c' = simTime c /\
  (forall x y, building (tiles c' x y) = building (tiles c x y)) /\
  ((activeDisaster svc' = None /\
    ns = if recoveryCompleteFnSet svc then [RecoveryComplete] else []) \/
   (exists d', activeDisaster svc' = Some d' /\
      epicenterX d' = epicenterX d /\ epicenterY d' = epicenterY d /\
      affectedTiles d' <> [] /\ sublist (affectedTiles d') (affectedTiles d) /\ ns = [])).
Proof.
  intros Hd. unfold simulate. rewrite Hd. unfold advanceRecovery.
  destruct (recoverAll_spec (affectedTiles d) c) as (Ha & Hs & Ht & Hb).
  pose proof (filter_fst_sublist (snd (recoverAll c (affectedTiles d)))) as Hsub.
  rewrite Ha in Hsub.
  destruct (recoverAll c (affectedTiles d)) as [c' flags]. simpl in *.
  destruct (map fst (List.filter (fun p => negb (snd p)) flags)) as [|e rest] eqn:Hr.
  - simpl. split; [reflexivity|split; [exact Hs|split; [exact Ht|split; [exact Hb|]]]].
    left. split; reflexivity.
  - simpl. split; [reflexivity|split; [exact Hs|split; [exact Ht|split; [exact Hb|]]]].
    right. eexists; split; [reflexivity|].
    split; [reflexivity|split; [reflexivity|split; [discriminate|split; [exact Hsub|reflexivity]]]].
Qed.

(** X9 *)
(** X9: a simulation tick without an active hazard either changes
    nothing at all, or starts a hazard; it starts one only when the city
    has at least 8 buildings, at least 60 ticks have passed since the
    previous hazard, and the Bernoulli draw is at most 0.02, and it then
    records the current tick as [lastDisasterTick]. *)
Theorem trigger_only_when_guards_pass (c : City) (svc : Service) (dr : Draws) :
  activeDisaster svc = None ->
  let '(c', svc', ns) := simulate c svc dr in
  (activeDisaster svc' = None -> c' = c /\ svc' = svc /\ ns = []) /\
  (activeDisaster svc' <> None ->
     minBuildingsForDisaster <= buildingCount c /\
     (forall t, lastDisasterTick svc = Some t -> minTicksBetweenDisasters <= simTime c - t) /\
     PrimFloat.ltb disasterChance (d_chance dr) = false /\
     lastDisasterTick svc' = Some (simTime c)).
Proof.
  intros Hn. unfold simulate. rewrite Hn. unfold tryTriggerDisaster.
  destruct (buildingCount c <? minBuildingsForDisaster) eqn:Hb;
    [split; [auto|intros H; contradiction]|].
  destruct (tooSoon c svc) eqn:Hs; [split; [auto|intros H; contradiction]|].
  destruct (PrimFloat.ltb disasterChance (d_chance dr)) eqn:Hc;
    [split; [auto|intros H; contradiction]|].
  destruct (nth_error (buildingTiles c) (d_epicenter dr)) as [[ex ey]|];
    [|split; [auto|intros H; contradiction]].
  pose proof (triggerDisaster_frame c svc ex ey (minAffectedSize + d_sizeX dr)
                (minAffectedSize + d_sizeY dr) (d_recovery dr)) as Hsp.
  unfold triggerDisaster in Hsp |- *.
  destruct (fold_left _ _ _) as [c' affected]. cbn in Hsp |- *.
  destruct Hsp as (_ & Ht & _).
  split; [intros H; discriminate H|intros _].
  apply Z.ltb_ge in Hb. split; [exact Hb|].
  split; [|split; [reflexivity|rewrite Ht; reflexivity]].
  intros t Ht'. unfold tooSoon in Hs. rewrite Ht' in Hs. apply Z.ltb_ge in Hs. exact Hs.
Qed.

Lemma firstRecovered_spec (total : Z) (a : bool) (fuel : nat) :
  forall k n, firstRecovered total a (progressAfter total a k) k fuel = Some n ->
  (k < n)%nat /\ PrimFloat.leb 1 (progressAfter total a n) = true /\
  (forall j, (k < j < n)%nat -> PrimFloat.leb 1 (progressAfter total a j) = false).
Proof.
  induction fuel as [|f IH]; intros k n H; simpl in H; [discriminate H|].
  change (nextProgress total a (progressAfter total a k)) with (progressAfter total a (S k)) in H.
  destruct (PrimFloat.leb 1 (progressAfter total a (S k))) eqn:E.
  - injection H as <-. split; [lia|split; [exact E|intros j Hj; lia]].
  - destruct (IH (S k) n H) as (H1 & H2 & H3).
    split; [lia|split; [exact H2|]].
    intros j Hj. destruct (Nat.eq_dec j (S k)) as [->|Hne]; [exact E|apply H3; lia].
Qed.

Lemma recoveryTable_holds : recoveryTableOk true = true /\ recoveryTableOk false = true.
Proof. vm_compute. split; reflexivity. Qed.

End DisasterExtra.

(* ================================================================== *)
(** * Recovery of a tile in a reachable hazard *)
(* ================================================================== *)

Module DisasterRecovery.
Import Disaster DisasterFacts DisasterExtra.

Lemma recoverEntry_other (c : City) (e : AffectedTile) (x y : Z) :
  (x, y) <> coord e -> tiles (fst (recoverEntry c e)) x y = tiles c x y.
Proof.
  intros Hne. unfold coord in Hne. unfold recoverEntry.
  destruct (PrimFloat.leb 1 _); cbn [fst]; rewrite !updateTile_other by exact Hne; reflexivity.
Qed.

Lemma recoverEntry_self (c : City) (e : AffectedTile) (b : option string) (dm : bool)
    (p : float) (a : bool) :
  tiles c (at_x e) (at_y e) = mkTile b dm p a ->
  tiles (fst (recoverEntry c e)) (at_x e) (at_y e) =
    (if PrimFloat.leb 1 (nextProgress (totalRecoveryTicks e) a p)
     then mkTile b false 0%float false
     else mkTile b dm (nextProgress (totalRecoveryTicks e) a p) a) /\
  snd (recoverEntry c e) = PrimFloat.leb 1 (nextProgress (totalRecoveryTicks e) a p).
Proof.
  intros Ht. unfold recoverEntry. rewrite Ht. cbn [activeRecovery recoveryProgress].
  destruct (PrimFloat.leb 1 _); cbn [fst snd]; rewrite !updateTile_same, ?Ht;
    split; reflexivity.
Qed.

Lemma recoverAll_frame (l : list AffectedTile) :
  forall c x y, ~ In (x, y) (map coord l) -> tiles (fst (recoverAll c l)) x y = tiles c x y.
Proof.
  induction l as [|e l IH]; intros c x y Hn; [reflexivity|]. cbn [recoverAll].
  destruct (recoverEntry c e) as [c1 r] eqn:E1.
  assert (H1 : tiles c1 x y = tiles c x y).
  { change c1 with (fst (c1, r)). rewrite <- E1. apply recoverEntry_other.
    intros E. apply Hn. left. symmetry. exact E. }
  specialize (IH c1 x y (fun H => Hn (or_intror H))).
  destruct (recoverAll c1 l) as [c2 rs]. cbn [fst] in *. congruence.
Qed.

(** One pass of the first loop of [advanceRecovery] advances an entry whose
    coordinates no other entry shares exactly as [recoverEntry] alone. *)
Lemma recoverAll_entry (l : list AffectedTile) :
  forall c e b dm p a,
  List.NoDup (map coord l) -> In e l ->
  tiles c (at_x e) (at_y e) = mkTile b dm p a ->
  tiles (fst (recoverAll c l)) (at_x e) (at_y e) =
    (if PrimFloat.leb 1 (nextProgress (totalRecoveryTicks e) a p)
     then mkTile b false 0%float false
     else mkTile b dm (nextProgress (totalRecoveryTicks e) a p) a) /\
  In (e, PrimFloat.leb 1 (nextProgress (totalRecoveryTicks e) a p)) (snd (recoverAll c l)).
Proof.
  induction l as [|e0 l IH]; intros c e b dm p a Hnd Hin Ht; [destruct Hin|].
  cbn [map] in Hnd. apply NoDup_cons_iff in Hnd as [Hn0 Hnd].
  cbn [recoverAll]. destruct (recoverEntry c e0) as [c1 r] eqn:E1.
  destruct Hin as [<-|Hin].
  - destruct (recoverEntry_self c e0 b dm p a Ht) as [Hs Hr].
    rewrite E1 in Hs, Hr. cbn [fst snd] in Hs, Hr.
    pose proof (recoverAll_frame l c1 (at_x e0) (at_y e0) Hn0) as Hf.
    destruct (recoverAll c1 l) as [c2 rs]. cbn [fst snd] in *.
    split; [congruence|left; rewrite Hr; reflexivity].
  - assert (Hne : (at_x e, at_y e) <> coord e0).
    { intros E. apply Hn0. rewrite <- E. apply (in_map coord l e Hin). }
    assert (H1 : tiles c1 (at_x e) (at_y e) = mkTile b dm p a).
    { change c1 with (fst (c1, r)). rewrite <- E1, recoverEntry_other by exact Hne. exact Ht. }
    destruct (IH c1 e b dm p a Hnd Hin H1) as [Hs Hr].
    destruct (recoverAll c1 l) as [c2 rs]. cbn [fst snd] in *.
    split; [exact Hs|right; exact Hr].
Qed.

Lemma remaining_keeps (flags : list (AffectedTile * bool)) (e : AffectedTile) :
  In (e, false) flags -> In e (map fst (List.filter (fun p => negb (snd p)) flags)).
Proof.
  intros H. apply in_map_iff. exists (e, false). split; [reflexivity|].
  apply filter_In. split; [exact H|reflexivity].
Qed.

Lemma remaining_sub (flags : list (AffectedTile * bool)) (e : AffectedTile) :
  In e (map fst (List.filter (fun p => negb (snd p)) flags)) -> In e (map fst flags).
Proof.
  rewrite !in_map_iff. intros (q & Hq & Hin). exists q. split; [exact Hq|].
  apply filter_In in Hin as [Hin _]. exact Hin.
Qed.

Lemma remaining_nodup (flags : list (AffectedTile * bool)) :
  List.NoDup (map coord (map fst flags)) ->
  List.NoDup (map coord (map fst (List.filter (fun p => negb (snd p)) flags))).
Proof.
  induction flags as [|[e r] flags IH]; intros Hnd; [constructor|].
  cbn [map] in Hnd. apply NoDup_cons_iff in Hnd as [Hn Hnd].
  cbn [List.filter snd]. destruct (negb r); [|exact (IH Hnd)].
  cbn [map fst]. constructor; [|exact (IH Hnd)].
  intros Hin. apply Hn. apply in_map_iff in Hin as (e' & Heq & Hin).
  apply in_map_iff. exists e'. split; [exact Heq|]. apply remaining_sub. exact Hin.
Qed.

Lemma remaining_drops (flags : list (AffectedTile * bool)) (e : AffectedTile) :
  List.NoDup (map coord (map fst flags)) -> In (e, true) flags ->
  ~ In (coord e) (map coord (map fst (List.filter (fun p => negb (snd p)) flags))).
Proof.
  induction flags as [|[e0 r] flags IH]; intros Hnd Hin; [destruct Hin|].
  cbn [map fst] in Hnd. apply NoDup_cons_iff in Hnd as [Hn Hnd].
  cbn [List.filter snd]. destruct Hin as [E|Hin].
  - injection E as -> ->. cbn [negb]. intros H. apply Hn.
    apply in_map_iff in H as (e' & Heq & H). apply in_map_iff. exists e'.
    split; [exact Heq|]. apply remaining_sub. exact H.
  - assert (Hne : coord e0 <> coord e).
    { intros E. apply Hn. rewrite E. apply in_map. apply (in_map fst) in Hin. exact Hin. }
    destruct (negb r); [|exact (IH Hnd Hin)].
    cbn [map fst]. intros [E|H]; [exact (Hne E)|exact (IH Hnd Hin H)].
Qed.

(** One simulation tick during a hazard, seen from one of its tiles. *)
Lemma tick_entry (c : City) (svc : Service) (dr : Draws) (d : ActiveDisaster)
    (e : AffectedTile) (b : option string) (dm : bool) (p : float) (a : bool) :
  activeDisaster svc = Some d ->
  List.NoDup (map coord (affectedTiles d)) -> In e (affectedTiles d) ->
  tiles c (at_x e) (at_y e) = mkTile b dm p a ->
  (PrimFloat.leb 1 (nextProgress (totalRecoveryTicks e) a p) = false ->
   exists d', activeDisaster (snd (fst (simulate c svc dr))) = Some d' /\
     List.NoDup (map coord (affectedTiles d')) /\ In e (affectedTiles d') /\
     tiles (fst (fst (simulate c svc dr))) (at_x e) (at_y e) =
       mkTile b dm (nextProgress (totalRecoveryTicks e) a p) a) /\
  (PrimFloat.leb 1 (nextProgress (totalRecoveryTicks e) a p) = true ->
   damaged (tiles (fst (fst (simulate c svc dr))) (at_x e) (at_y e)) = false /\
   forall d', activeDisaster (snd (fst (simulate c svc dr))) = Some d' ->
     ~ In (coord e) (map coord (affectedTiles d'))).
Proof.
  intros Hd Hnd Hin Ht. unfold simulate. rewrite Hd. unfold advanceRecovery.
  destruct (recoverAll_spec (affectedTiles d) c) as (Hmap & _).
  destruct (recoverAll_entry (affectedTiles d) c e b dm p a Hnd Hin Ht) as [Hs Hr].
  destruct (recoverAll c (affectedTiles d)) as [c' flags]. cbn [fst snd] in *.
  rewrite <- Hmap in Hnd.
  pose proof (remaining_nodup flags Hnd) as Hnd'.
  split; intros Hl; rewrite Hl in Hs, Hr.
  - pose proof (remaining_keeps flags e Hr) as Hk.
    revert Hk Hnd'.
    destruct (map fst (List.filter (fun p => negb (snd p)) flags)) as [|e1 rest];
      intros Hk Hnd'; [destruct Hk|].
    cbn [fst snd activeDisaster affectedTiles].
    exists (mkDisaster (epicenterX d) (epicenterY d) (e1 :: rest)).
    split; [reflexivity|split; [exact Hnd'|split; [exact Hk|exact Hs]]].
  - pose proof (remaining_drops flags e Hnd Hr) as Hk.
    revert Hk.
    destruct (map fst (List.filter (fun p => negb (snd p)) flags)) as [|e1 rest];
      intros Hk; cbn [fst snd activeDisaster]; (split; [rewrite Hs; reflexivity|]);
      intros d' Hd'; [discriminate Hd'|injection Hd' as <-; exact Hk].
Qed.

(** Ticks during which a tile, starting from progress 0, is not yet
    recovered: the hazard stays active and lists it, and its progress is
    [progressAfter] the number of ticks. *)
Lemma ticks_entry_below (c : City) (svc : Service) (dr : Draws) (d : ActiveDisaster)
    (e : AffectedTile) (b : option string) (dm : bool) (a : bool) (n : nat) :
  activeDisaster svc = Some d ->
  List.NoDup (map coord (affectedTiles d)) -> In e (affectedTiles d) ->
  tiles c (at_x e) (at_y e) = mkTile b dm 0%float a ->
  (forall j, (0 < j < n)%nat -> PrimFloat.leb 1 (progressAfter (totalRecoveryTicks e) a j) = false) ->
  forall k, (k < n)%nat ->
  exists dk, activeDisaster (snd (ticks k dr c svc)) = Some dk /\
    List.NoDup (map coord (affectedTiles dk)) /\ In e (affectedTiles dk) /\
    tiles (fst (ticks k dr c svc)) (at_x e) (at_y e) =
      mkTile b dm (progressAfter (totalRecoveryTicks e) a k) a.
Proof.
  intros Hd Hnd Hin Ht Hj. induction k as [|k IH]; intros Hk.
  - exists d. auto.
  - destruct (IH ltac:(lia)) as (dk & Hdk & Hndk & Hink & Htk).
    rewrite ticks_S. cbn [fst snd].
    apply (proj1 (tick_entry _ _ dr dk e b dm _ a Hdk Hndk Hink Htk)).
    exact (Hj (S k) ltac:(lia)).
Qed.

(** The tick on which such a tile is recovered. *)
Lemma ticks_entry_done (c : City) (svc : Service) (dr : Draws) (d : ActiveDisaster)
    (e : AffectedTile) (b : option string) (dm : bool) (a : bool) (n : nat) :
  activeDisaster svc = Some d ->
  List.NoDup (map coord (affectedTiles d)) -> In e (affectedTiles d) ->
  tiles c (at_x e) (at_y e) = mkTile b dm 0%float a ->
  (forall j, (0 < j <= n)%nat -> PrimFloat.leb 1 (progressAfter (totalRecoveryTicks e) a j) = false) ->
  PrimFloat.leb 1 (progressAfter (totalRecoveryTicks e) a (S n)) = true ->
  damaged (tiles (fst (ticks (S n) dr c svc)) (at_x e) (at_y e)) = false /\
  forall d', activeDisaster (snd (ticks (S n) dr c svc)) = Some d' ->
    ~ In (coord e) (map coord (affectedTiles d')).
Proof.
  intros Hd Hnd Hin Ht Hj Hl.
  destruct (ticks_entry_below c svc dr d e b dm a (S n) Hd Hnd Hin Ht
              (fun j Hjn => Hj j ltac:(lia)) n ltac:(lia)) as (dn & Hdn & Hndn & Hinn & Htn).
  rewrite ticks_S. cbn [fst snd].
  apply (proj2 (tick_entry _ _ dr dn e b dm _ a Hdn Hndn Hinn Htn)). exact Hl.
Qed.

Lemma triggerDisaster_wf (c : City) (svc : Service) (ex ey sx sy : Z) (rec : Z -> Z -> Z) :
  (forall x y, 0 <= rec x y <= maxRecoveryTicks - minRecoveryTicks) ->
  hazard_wf (snd (fst (triggerDisaster c svc ex ey sx sy rec))).
Proof.
  intros Hrec. unfold triggerDisaster.
  match goal with |- context [fold_left (triggerTile rec) ?l (c, [])] =>
    destruct (fold_trigger_spec rec l c []) as (_ & _ & Ha & _ & _);
    destruct (fold_left (triggerTile rec) l (c, [])) as [c' affected] end.
  cbn [fst snd] in Ha. cbn [fst snd activeDisaster]. intros d Hd. injection Hd as <-.
  cbn [affectedTiles]. rewrite Ha. cbn [app]. split.
  - rewrite map_coord_affected. apply List.NoDup_filter, NoDup_ListNoDup, coords_nodup.
  - intros e He. apply in_map_iff in He as ([x y] & <- & _). cbn [totalRecoveryTicks fst snd].
    specialize (Hrec x y). unfold minRecoveryTicks, maxRecoveryTicks in *. lia.
Qed.

Lemma simulate_wf (c : City) (svc : Service) (dr : Draws) :
  wf_draws c dr -> hazard_wf svc -> hazard_wf (snd (fst (simulate c svc dr))).
Proof.
  intros (_ & _ & _ & Hrec) HI. unfold simulate.
  destruct (activeDisaster svc) as [d0|] eqn:Ha.
  - destruct (HI d0 Ha) as [Hnd Hr]. unfold advanceRecovery.
    destruct (recoverAll_spec (affectedTiles d0) c) as (Hmap & _).
    destruct (recoverAll c (affectedTiles d0)) as [c' flags]. cbn [fst snd] in Hmap.
    rewrite <- Hmap in Hnd, Hr.
    pose proof (remaining_nodup flags Hnd) as Hnd'.
    pose proof (remaining_sub flags) as Hsub.
    revert Hnd' Hsub.
    destruct (map fst (List.filter (fun p => negb (snd p)) flags)) as [|e rest];
      intros Hnd' Hsub d Hd; cbn [fst snd activeDisaster] in Hd; [discriminate Hd|].
    injection Hd as <-. cbn [affectedTiles]. split; [exact Hnd'|].
    intros e' He'. apply Hr, Hsub, He'.
  - assert (Hnone : hazard_wf svc) by (intros d Hd; congruence).
    unfold tryTriggerDisaster.
    destruct (buildingCount c <? minBuildingsForDisaster); [exact Hnone|].
    destruct (tooSoon c svc); [exact Hnone|].
    destruct (PrimFloat.ltb disasterChance (d_chance dr)); [exact Hnone|].
    destruct (nth_error (buildingTiles c) (d_epicenter dr)) as [[ex ey]|]; [|exact Hnone].
    apply triggerDisaster_wf. exact Hrec.
Qed.

Lemma sys_reachable_wf (st : City * Service) : sys_reachable st -> hazard_wf (snd st).
Proof.
  induction 1 as [c n r|st st' _ IH Hs].
  - intros d Hd. discriminate.
  - destruct Hs as [c svc dr c' svc' ns Hw Hsim|c svc x y|c c' svc]; cbn [snd] in *;
      [|exact IH|exact IH].
    pose proof (simulate_wf c svc dr Hw IH) as H. rewrite Hsim in H. exact H.
Qed.

Lemma tile_eta (t : Tile) :
  t = mkTile (building t) (damaged t) (recoveryProgress t) (activeRecovery t).
Proof. destruct t; reflexivity. Qed.

(** C5 *)
(** C5: in any reachable state, take a tile listed by the active hazard
    (other tiles may be listed too) whose [totalRecoveryTicks] is 300,
    whose [activeRecovery] flag is set and whose progress is 0.  Over the
    following recovery ticks (increment [1 / 300 * 5] in binary64) the
    hazard stays active and keeps listing the tile, with progress below 1,
    after each of the first 59 ticks; the 60th tick brings its progress to
    exactly 1, clears its damage and removes it from the affected-tile
    list (the hazard ends or goes on without it). *)
Theorem active_recovery_completes_at_tick_60 (c : City) (svc : Service) (dr : Draws)
    (d : ActiveDisaster) (e : AffectedTile) :
  sys_reachable (c, svc) ->
  activeDisaster svc = Some d -> In e (affectedTiles d) ->
  totalRecoveryTicks e = 300 ->
  activeRecovery (tiles c (at_x e) (at_y e)) = true ->
  recoveryProgress (tiles c (at_x e) (at_y e)) = 0%float ->
  (forall n, (n < 60)%nat ->
     exists dn, activeDisaster (snd (ticks n dr c svc)) = Some dn /\ In e (affectedTiles dn) /\
       PrimFloat.ltb (recoveryProgress (tiles (fst (ticks n dr c svc)) (at_x e) (at_y e))) 1 = true) /\
  nextProgress 300 true (recoveryProgress (tiles (fst (ticks 59 dr c svc)) (at_x e) (at_y e))) = 1%float /\
  damaged (tiles (fst (ticks 60 dr c svc)) (at_x e) (at_y e)) = false /\
  (forall d', activeDisaster (snd (ticks 60 dr c svc)) = Some d' ->
     ~ In (coord e) (map coord (affectedTiles d'))).
Proof.
  intros Hr Hd Hin Htot Ha Hp.
  destruct (sys_reachable_wf _ Hr d Hd) as [Hnd _].
  pose proof (tile_eta (tiles c (at_x e) (at_y e))) as Ht. rewrite Ha, Hp in Ht.
  assert (Hj : forall j, (0 < j < 60)%nat ->
            PrimFloat.leb 1 (progressAfter (totalRecoveryTicks e) true j) = false).
  { intros j Hj. rewrite Htot. exact (proj2 (progress_below_one j ltac:(lia))). }
  pose proof (ticks_entry_below c svc dr d e _ _ true 60 Hd Hnd Hin Ht Hj) as Hb.
  split; [|split; [|split]].
  - intros n Hn. destruct (Hb n Hn) as (dn & Hdn & _ & Hinn & Htn).
    exists dn. split; [exact Hdn|split; [exact Hinn|]].
    rewrite Htn. cbn [recoveryProgress]. rewrite Htot.
    exact (proj1 (progress_below_one n Hn)).
  - destruct (Hb 59%nat ltac:(lia)) as (_ & _ & _ & _ & Ht59).
    rewrite Ht59. cbn [recoveryProgress]. rewrite Htot. exact (proj2 progress_table).
  - apply (ticks_entry_done c svc dr d e _ _ true 59 Hd Hnd Hin Ht
             (fun j Hjn => Hj j ltac:(lia))).
    rewrite Htot. rewrite (proj2 progress_table). reflexivity.
  - apply (ticks_entry_done c svc dr d e _ _ true 59 Hd Hnd Hin Ht
             (fun j Hjn => Hj j ltac:(lia))).
    rewrite Htot. rewrite (proj2 progress_table). reflexivity.
Qed.

(** X10 *)
(** X10: in any reachable state, take a tile listed by the active hazard
    whose progress is 0, and let only simulation ticks happen.  The tile is
    recovered on tick [n], where [n] is [N] or [N + 1] (binary64 rounding)
    and [N] is its [totalRecoveryTicks] (300 .. 600, as [triggerDisaster]
    draws it), or [ceil(totalRecoveryTicks / 5)] if it is actively
    recovered: after each of the ticks [0 .. n - 1] the hazard is active
    and lists the tile, still damaged as before; tick [n] clears its damage
    and removes it from the affected-tile list. *)
Theorem recovery_takes_nominal_ticks (c : City) (svc : Service) (dr : Draws)
    (d : ActiveDisaster) (e : AffectedTile) :
  sys_reachable (c, svc) ->
  activeDisaster svc = Some d -> In e (affectedTiles d) ->
  recoveryProgress (tiles c (at_x e) (at_y e)) = 0%float ->
  exists n,
    (nominalTicks (totalRecoveryTicks e) (activeRecovery (tiles c (at_x e) (at_y e))) <= n <=
       S (nominalTicks (totalRecoveryTicks e) (activeRecovery (tiles c (at_x e) (at_y e)))))%nat /\
    (forall k, (k < n)%nat ->
       exists dk, activeDisaster (snd (ticks k dr c svc)) = Some dk /\ In e (affectedTiles dk) /\
         damaged (tiles (fst (ticks k dr c svc)) (at_x e) (at_y e)) =
           damaged (tiles c (at_x e) (at_y e))) /\
    damaged (tiles (fst (ticks n dr c svc)) (at_x e) (at_y e)) = false /\
    (forall d', activeDisaster (snd (ticks n dr c svc)) = Some d' ->
       ~ In (coord e) (map coord (affectedTiles d'))).
Proof.
  intros Hreach Hd Hin Hp.
  destruct (sys_reachable_wf _ Hreach d Hd) as [Hnd Hrange].
  set (a := activeRecovery (tiles c (at_x e) (at_y e))).
  pose proof (tile_eta (tiles c (at_x e) (at_y e))) as Ht. rewrite Hp in Ht. fold a in Ht.
  set (total := totalRecoveryTicks e) in *.
  assert (Htab : recoveryTableOk a = true).
  { destruct recoveryTable_holds. destruct a; assumption. }
  unfold recoveryTableOk in Htab. rewrite forallb_forall in Htab.
  specialize (Htab total). rewrite in_zrange in Htab.
  specialize (Hrange e Hin). fold total in Hrange.
  unfold minRecoveryTicks, maxRecoveryTicks in Hrange, Htab.
  specialize (Htab ltac:(simpl; lia)).
  destruct (firstRecovered total a 0%float 0 1000) as [n|] eqn:Hf; [|discriminate Htab].
  apply andb_true_iff in Htab as [Hlo Hhi]. apply Nat.leb_le in Hlo, Hhi.
  change 0%float with (progressAfter total a 0) in Hf.
  destruct (firstRecovered_spec total a 1000 0 n Hf) as (Hpos & Hdone & Hbelow).
  pose proof (ticks_entry_below c svc dr d e _ _ a n Hd Hnd Hin Ht Hbelow) as Hb.
  exists n. split; [lia|]. split.
  - intros k Hk. destruct (Hb k Hk) as (dk & Hdk & _ & Hink & Htk).
    exists dk. split; [exact Hdk|split; [exact Hink|]]. rewrite Htk. reflexivity.
  - destruct n as [|m]; [lia|].
    apply (ticks_entry_done c svc dr d e _ _ a m Hd Hnd Hin Ht
             (fun j Hj => Hbelow j ltac:(lia)) Hdone).
Qed.

End DisasterRecovery.


(* ================================================================== *)
(** * Further properties of the two request engines *)
(* ================================================================== *)

Module RequestEngineExtra.
Import RequestEngine RequestEngineFacts.

Lemma computeNextCooldown_bounds (h : option Q) (n : nat) (p : Z) (rnd : Q) :
  (8000 <= computeNextCooldown h n p rnd <= 40000)%Q.
Proof. unfold computeNextCooldown. apply Math_clamp_bounds. unfold Qle; simpl; lia. Qed.

Lemma evaluate_requests (env : Env) (s : State) : requests (evaluate env s) = requests s.
Proof.
  unfold evaluate, finishEvaluate, transitionToIdle.
  destruct (current s); [destruct (snapshotBefore s); [destruct (hasEvaluateFn s)|]|]; reflexivity.
Qed.

Lemma evaluate_cooldown (env : Env) (s : State) :
  nextCooldownMs (evaluate env s) = nextCooldownMs s \/
  exists h n p rnd, nextCooldownMs (evaluate env s) = computeNextCooldown h n p rnd.
Proof.
  unfold evaluate, finishEvaluate, transitionToIdle.
  destruct (current s); [destruct (snapshotBefore s); [destruct (hasEvaluateFn s)|]|];
    first [left; reflexivity | right; do 4 eexists; reflexivity].
Qed.

Lemma step_cooldown (s s' : State) :
  step s s' ->
  nextCooldownMs s' = nextCooldownMs s \/
  exists h n p rnd, nextCooldownMs s' = computeNextCooldown h n p rnd.
Proof.
  intros Hs. destruct Hs as [env s|s|env s|env s _|h s].
  - unfold onCityChanged. destruct (phase s); [| left; reflexivity | | left; reflexivity].
    + unfold tryGenerateRequest. destruct (Qltb _ _); [left; reflexivity|].
      destruct (detectProblems _); left; reflexivity.
    + destruct (_ <=? 0); [|left; reflexivity].
      destruct (evaluate_cooldown env (mkState evaluating (currentRequest s) (snapshotBefore s)
                  (settleTicksRemaining s - 1) (expiryTimeoutId s) (requests s) (lastIdleTime s)
                  (nextCooldownMs s) (hasEvaluateFn s) (evalPending s) (cityHappiness s)))
        as [H|H]; [left; exact H|right; exact H].
  - unfold markResolved. destruct (phase s); try (left; reflexivity).
    destruct (currentRequest s); left; reflexivity.
  - unfold expireRequest. destruct (phase s); try (left; reflexivity).
    destruct (currentRequest s); [right; do 4 eexists; reflexivity|left; reflexivity].
  - right; do 4 eexists; reflexivity.
  - left; reflexivity.
Qed.

(** X11 *)
(** X11: in every reachable state of the single-slot engine the cooldown
    [nextCooldownMs] lies in [[8000, 40000]] (its initial 20000 and every
    value [computeNextCooldown] clamps); hence an idle tick less than 8 s
    after the last return to idle changes nothing. *)
Theorem cooldown_bounded_and_respected (s : State) (env : Env) :
  reachable s ->
  (8000 <= nextCooldownMs s <= 40000)%Q /\
  (phase s = idle -> env_now env - lastIdleTime s < 8000 -> onCityChanged env s = s).
Proof.
  intros Hr.
  assert (Hb : (8000 <= nextCooldownMs s <= 40000)%Q).
  { induction Hr as [b h|s0 s1 _ IH Hs].
    - unfold Qle; simpl; lia.
    - destruct (step_cooldown s0 s1 Hs) as [->|(h & n & p & rnd & ->)];
        [exact IH|apply computeNextCooldown_bounds]. }
  split; [exact Hb|]. intros Hp Hgap.
  unfold onCityChanged. rewrite Hp. unfold tryGenerateRequest.
  replace (Qltb _ _) with true; [reflexivity|]. symmetry. apply Qltb_true.
  apply Qlt_le_trans with (8000#1); [|apply Hb]. unfold QZ, Qlt; simpl; lia.
Qed.

Lemma step_requests (s s' : State) :
  step s s' ->
  requests s' = requests s \/
  (exists r, requests s' = requests s ++ [r] /\ is_active r = true) \/
  (phase s = request_active /\ exists st, st <> active /\ requests s' = setCurrentStatus st s).
Proof.
  intros Hs. destruct Hs as [env s|s|env s|env s _|h s].
  - unfold onCityChanged. destruct (phase s) eqn:Hp; [| left; reflexivity | | left; reflexivity].
    + unfold tryGenerateRequest. destruct (Qltb _ _); [left; reflexivity|].
      destruct (detectProblems _); [left; reflexivity|].
      right; left. eexists; split; reflexivity.
    + left. destruct (_ <=? 0); [|reflexivity]. rewrite evaluate_requests. reflexivity.
  - unfold markResolved. destruct (phase s) eqn:Hp; try (left; reflexivity).
    destruct (currentRequest s); [|left; reflexivity].
    right; right. split; [reflexivity|]. exists fulfilled. split; [discriminate|reflexivity].
  - unfold expireRequest. destruct (phase s) eqn:Hp; try (left; reflexivity).
    destruct (currentRequest s); [|left; reflexivity].
    right; right. split; [reflexivity|]. exists expired. split; [discriminate|reflexivity].
  - left; reflexivity.
  - left; reflexivity.
Qed.

Lemma setCurrentStatus_spec (st : RequestStatus) (s : State) :
  Inv s -> phase s = request_active ->
  length (setCurrentStatus st s) = length (requests s) /\
  forall i r, requests s !! i = Some r ->
    exists r', setCurrentStatus st s !! i = Some r' /\ req_id r' = req_id r /\
      citizenName r' = citizenName r /\ req_type r' = req_type r /\
      createdAt r' = createdAt r /\ (status r' = status r \/ (status r = active /\ status r' = st)).
Proof.
  intros [_ Hm] Hp. rewrite Hp in Hm.
  destruct Hm as (ci & cr & Hc & Hl & Ha & _).
  unfold setCurrentStatus. rewrite Hc, Hl.
  split; [apply length_insert|].
  intros i r Hi. destruct (decide (i = ci)) as [->|Hne].
  - rewrite Hl in Hi. injection Hi as <-. eexists; split.
    + apply list_lookup_insert_eq. apply lookup_lt_Some in Hl. exact Hl.
    + cbn. split; [reflexivity|split; [reflexivity|split; [reflexivity|split; [reflexivity|]]]].
      right. split; [|reflexivity]. unfold is_active in Ha. destruct (status cr); congruence.
  - exists r. rewrite list_lookup_insert_ne by congruence.
    split; [exact Hi|split; [reflexivity|split; [reflexivity|split; [reflexivity|split; [reflexivity|]]]]].
    left; reflexivity.
Qed.

(** X12 *)
(** X12: the request history of the single-slot engine is append-only:
    a step of a reachable state either keeps its length or appends one
    active request, keeps the id, citizen, type and creation time of every
    stored request, and changes a status only from [active] to another
    status. *)
Theorem request_log_append_only (s s' : State) :
  reachable s -> step s s' ->
  (length (requests s') = length (requests s) \/
   (length (requests s') = S (length (requests s)) /\
    exists r, requests s' !! length (requests s) = Some r /\ status r = active)) /\
  (forall i r, requests s !! i = Some r ->
     exists r', requests s' !! i = Some r' /\ req_id r' = req_id r /\
       citizenName r' = citizenName r /\ req_type r' = req_type r /\
       createdAt r' = createdAt r /\
       (status r' = status r \/ (status r = active /\ status r' <> active))).
Proof.
  intros Hr Hs. pose proof (reachable_Inv s Hr) as HI.
  destruct (step_requests s s' Hs) as [E|[(r & E & Ha)|(Hp & st & Hst & E)]]; rewrite E.
  - split; [left; reflexivity|]. intros i r Hi. exists r.
    split; [exact Hi|split; [reflexivity|split; [reflexivity|split; [reflexivity|split; [reflexivity|]]]]].
    left; reflexivity.
  - split.
    + right. split; [rewrite length_app; simpl; lia|]. exists r. split.
      * rewrite lookup_app_r by lia. rewrite Nat.sub_diag. reflexivity.
      * unfold is_active in Ha. destruct (status r); congruence.
    + intros i r0 Hi. exists r0. rewrite lookup_app_l by (apply lookup_lt_Some in Hi; exact Hi).
      split; [exact Hi|split; [reflexivity|split; [reflexivity|split; [reflexivity|split; [reflexivity|]]]]].
      left; reflexivity.
  - destruct (setCurrentStatus_spec st s HI Hp) as [Hlen Hsp].
    split; [left; exact Hlen|].
    intros i r Hi. destruct (Hsp i r Hi) as (r' & H1 & H2 & H3 & H4 & H5 & H6).
    exists r'. split; [exact H1|split; [exact H2|split; [exact H3|split; [exact H4|split; [exact H5|]]]]].
    destruct H6 as [H6|[H6 H7]]; [left; exact H6|right; split; [exact H6|congruence]].
Qed.

Lemma pickProblem_in (ps : list RequestType) (r : Q) :
  ps <> [] -> (0 <= r < 1)%Q -> In (pickProblem ps r) ps.
Proof.
  intros Hne [H0 H1]. unfold pickProblem. apply nth_In.
  destruct ps as [|p ps']; [congruence|].
  remember (length (p :: ps')) as n eqn:En.
  assert (Hn : (0 < n)%nat) by (subst n; simpl; lia).
  destruct r as [a b]. unfold Qle, Qlt in H0, H1. cbn in H0, H1.
  unfold QZ, inject_Z, Qmult, Qfloor. cbn [Qnum Qden].
  assert (Hd : (a * Z.of_nat n) / Z.pos (b * 1) < Z.of_nat n).
  { apply Z.div_lt_upper_bound; [lia|]. rewrite Pos.mul_1_r. nia. }
  lia.
Qed.

(** X13 *)
(** X13: an idle tick (with [Math.random()] in [[0, 1)]) either leaves
    the engine unchanged or, only once the cooldown has elapsed, enters
    [request_active] with a new active request appended to the history,
    created now, whose type is one of the problems [detectProblems]
    reports, as the current request, with the tick's snapshot as
    [snapshotBefore]. *)
Theorem idle_tick_requests_detected_problem (env : Env) (s : State) :
  (0 <= env_pick env < 1)%Q -> phase s = idle ->
  (phase (onCityChanged env s) = idle -> onCityChanged env s = s) /\
  (phase (onCityChanged env s) <> idle ->
     phase (onCityChanged env s) = request_active /\
     (nextCooldownMs s <= QZ (env_now env - lastIdleTime s))%Q /\
     currentRequest (onCityChanged env s) = Some (length (requests s)) /\
     snapshotBefore (onCityChanged env s) = Some (env_snap env) /\
     exists r, requests (onCityChanged env s) = requests s ++ [r] /\
       In (req_type r) (detectProblems (env_snap env)) /\
       status r = active /\ createdAt r = env_now env).
Proof.
  intros Hpick Hp. unfold onCityChanged. rewrite Hp. unfold tryGenerateRequest.
  destruct (Qltb _ _) eqn:Hc; [split; [reflexivity|intros H; exfalso; exact (H Hp)]|].
  destruct (detectProblems (env_snap env)) as [|p ps] eqn:Hd;
    [split; [reflexivity|intros H; exfalso; exact (H Hp)]|].
  split; [intros H; discriminate H|intros _].
  split; [reflexivity|]. split.
  - unfold Qltb in Hc. apply negb_false_iff, Qle_bool_iff in Hc. exact Hc.
  - split; [reflexivity|split; [reflexivity|]].
    eexists; split; [reflexivity|]. cbn [req_type status createdAt createRequest].
    split; [|split; reflexivity].
    apply pickProblem_in; [discriminate|exact Hpick].
Qed.

(** X14 *)
(** X14: after [markResolved] on the current request, the engine settles
    for two ticks and the third tick evaluates: [city.happiness] becomes
    [applyHappiness] of the delta between [snapshotBefore] and the third
    tick's snapshot, the request stays fulfilled, and the engine either
    waits in [evaluating] for the evaluation callback or, without one, is
    idle again with no current request and the idle time reset. *)
Theorem resolved_request_settles_then_evaluated (s : State) (i : nat) (r : CitizenRequest)
    (b : CitySnapshot) (e1 e2 e3 : Env) :
  phase s = request_active -> currentRequest s = Some i ->
  requests s !! i = Some r -> snapshotBefore s = Some b ->
  let s1 := onCityChanged e1 (markResolved s) in
  let s2 := onCityChanged e2 s1 in
  let s3 := onCityChanged e3 s2 in
  phase s1 = settling /\ phase s2 = settling /\
  cityHappiness s3 =
    Some (applyHappiness (cityHappiness s) (computeHappinessDelta r b (env_snap e3))) /\
  (exists r', requests s3 !! i = Some r' /\ req_type r' = req_type r /\ status r' = fulfilled) /\
  (hasEvaluateFn s = true -> phase s3 = evaluating /\ evalPending s3 = true) /\
  (hasEvaluateFn s = false ->
     phase s3 = idle /\ currentRequest s3 = None /\ snapshotBefore s3 = None /\
     lastIdleTime s3 = env_now e3).
Proof.
  intros Hp Hc Hr Hb s1 s2 s3.
  set (r' := {| req_id := req_id r; citizenName := citizenName r; req_type := req_type r;
                createdAt := createdAt r; status := fulfilled |}).
  assert (Hset : setCurrentStatus fulfilled s = <[i:=r']> (requests s)).
  { unfold setCurrentStatus. rewrite Hc, Hr. reflexivity. }
  assert (Hl : <[i:=r']> (requests s) !! i = Some r').
  { apply list_lookup_insert_eq. apply lookup_lt_Some in Hr. exact Hr. }
  assert (E1 : s1 = mkState settling (Some i) (snapshotBefore s) 2 false
                      (<[i:=r']> (requests s)) (lastIdleTime s) (nextCooldownMs s)
                      (hasEvaluateFn s) (evalPending s) (cityHappiness s)).
  { unfold s1, markResolved. rewrite Hp, Hc, Hset. reflexivity. }
  assert (E2 : s2 = mkState settling (Some i) (snapshotBefore s) 1 false
                      (<[i:=r']> (requests s)) (lastIdleTime s) (nextCooldownMs s)
                      (hasEvaluateFn s) (evalPending s) (cityHappiness s)).
  { unfold s2. rewrite E1. reflexivity. }
  assert (E3 : s3 = evaluate e3 (mkState evaluating (Some i) (snapshotBefore s) 0 false
                      (<[i:=r']> (requests s)) (lastIdleTime s) (nextCooldownMs s)
                      (hasEvaluateFn s) (evalPending s) (cityHappiness s))).
  { unfold s3. rewrite E2. reflexivity. }
  rewrite E3. clearbody s1 s2 s3. rewrite E1, E2. clear E1 E2 E3.
  unfold evaluate, current. cbn [currentRequest requests snapshotBefore hasEvaluateFn].
  rewrite Hl, Hb.
  destruct (hasEvaluateFn s) eqn:Hh;
    [|unfold finishEvaluate, transitionToIdle];
    cbn [phase currentRequest snapshotBefore lastIdleTime cityHappiness requests evalPending].
  - split; [reflexivity|split; [reflexivity|split; [reflexivity|]]].
    split; [exists r'; split; [exact Hl|split; reflexivity]|].
    split; [intros _; split; reflexivity|intros H; discriminate H].
  - split; [reflexivity|split; [reflexivity|split; [reflexivity|]]].
    split; [exists r'; split; [exact Hl|split; reflexivity]|].
    split; [intros H; discriminate H|intros _; split; [reflexivity|split; [reflexivity|split; reflexivity]]].
Qed.

End RequestEngineExtra.

Module LegacyExtra.
Import RequestEngine RequestEngineFacts LegacyRequestEngine.

Lemma checkOne_fst (now : Z) (c : option bool) (r : Request) (h h' : option Q) :
  fst (checkOne now c r h) = fst (checkOne now c r h').
Proof.
  unfold checkOne. destruct (negb (l_is_active r)); [reflexivity|].
  destruct c as [[|]|]; cbv beta iota; destruct (_ && _); reflexivity.
Qed.

Lemma checkOne_spec (now : Z) (c : option bool) (r : Request) (h : option Q) :
  let r1 := fst (checkOne now c r h) in
  l_id r1 = l_id r /\ l_type r1 = l_type r /\ l_createdAt r1 = l_createdAt r /\
  (l_status r1 = l_status r \/ (l_status r = active /\ l_status r1 <> active)) /\
  (l_status r1 = active -> now - l_createdAt r1 <= expiryMs) /\
  (l_status r = active -> c = Some true -> l_status r1 = fulfilled).
Proof.
  unfold checkOne, l_is_active. destruct r as [id ty at0 st]. cbn [l_status].
  destruct st; cbn [negb].
  - destruct c as [[|]|]; cbv beta iota;
      cbn [l_createdAt setStatus l_status];
      destruct (now - at0 >? expiryMs) eqn:Ex; cbn [andb fst setStatus l_id l_type l_createdAt l_status].
    all: split; [reflexivity|split; [reflexivity|split; [reflexivity|]]].
    all: first
      [ split; [right; split; [reflexivity|discriminate]|];
        split; [intros H; discriminate H|]; intros _ H; first [reflexivity|discriminate H]
      | split; [left; reflexivity|];
        split; [intros _; rewrite Z.gtb_ltb, Z.ltb_ge in Ex; exact Ex|]; intros _ H; discriminate H ].
  - split; [reflexivity|split; [reflexivity|split; [reflexivity|]]].
    split; [left; reflexivity|split; [intros H; discriminate H|intros H; discriminate H]].
  - split; [reflexivity|split; [reflexivity|split; [reflexivity|]]].
    split; [left; reflexivity|split; [intros H; discriminate H|intros H; discriminate H]].
Qed.

Lemma checkAll_length (now : Z) (conds : nat -> option bool) (rs : list Request) :
  forall k h, length (fst (checkAll now conds k rs h)) = length rs.
Proof.
  induction rs as [|r rs IH]; intros k h; [reflexivity|]. cbn [checkAll].
  destruct (checkOne now (conds k) r h) as [r1 h1].
  specialize (IH (S k) h1). destruct (checkAll now conds (S k) rs h1) as [rs2 h2].
  cbn in *. lia.
Qed.

Lemma checkAll_lookup (now : Z) (conds : nat -> option bool) (rs : list Request) :
  forall k h j, fst (checkAll now conds k rs h) !! j =
    option_map (fun r => fst (checkOne now (conds (k + j)%nat) r None)) (rs !! j).
Proof.
  induction rs as [|r rs IH]; intros k h j; [reflexivity|]. cbn [checkAll].
  destruct (checkOne now (conds k) r h) as [r1 h1] eqn:E1.
  specialize (IH (S k) h1). destruct (checkAll now conds (S k) rs h1) as [rs2 h2].
  cbn [fst] in *. destruct j as [|j].
  - cbn. rewrite Nat.add_0_r. f_equal.
    change r1 with (fst (r1, h1)). rewrite <- E1. apply checkOne_fst.
  - cbn. rewrite IH. replace (S k + j)%nat with (k + S j)%nat by lia. reflexivity.
Qed.

(** X15 *)
(** X15: [checkFulfillment] keeps every request (same id, type and
    creation time) and changes a status only from [active]; an active
    request whose condition holds becomes fulfilled even past its expiry,
    and no request is still active afterwards if it is more than 5 minutes
    old. *)
Theorem checkFulfillment_sweep (now : Z) (conds : nat -> option bool) (s : State) :
  length (l_requests (checkFulfillment now conds s)) = length (l_requests s) /\
  (forall i r, l_requests s !! i = Some r ->
     exists r', l_requests (checkFulfillment now conds s) !! i = Some r' /\
       l_id r' = l_id r /\ l_type r' = l_type r /\ l_createdAt r' = l_createdAt r /\
       (l_status r' = l_status r \/ (l_status r = active /\ l_status r' <> active)) /\
       (l_status r' = active -> now - l_createdAt r' <= expiryMs) /\
       (l_status r = active -> conds i = Some true -> l_status r' = fulfilled)).
Proof.
  unfold checkFulfillment.
  pose proof (checkAll_length now conds (l_requests s) 0 (l_happiness s)) as Hlen.
  pose proof (checkAll_lookup now conds (l_requests s) 0 (l_happiness s)) as Hlk.
  destruct (checkAll now conds 0 (l_requests s) (l_happiness s)) as [rs h]. cbn [fst l_requests] in *.
  split; [exact Hlen|]. intros i r Hi.
  exists (fst (checkOne now (conds i) r None)). split.
  - rewrite Hlk, Hi. reflexivity.
  - exact (checkOne_spec now (conds i) r None).
Qed.



Lemma checkAll_active_le (now : Z) (conds : nat -> option bool) (rs : list Request) :
  forall k h, (length (List.filter l_is_active (fst (checkAll now conds k rs h))) <=
               length (List.filter l_is_active rs))%nat.
Proof.
  induction rs as [|r rs IH]; intros k h; [reflexivity|]. cbn [checkAll].
  pose proof (checkOne_spec now (conds k) r h) as Hs.
  destruct (checkOne now (conds k) r h) as [r1 h1]. cbn [fst] in Hs.
  destruct Hs as (_ & _ & _ & Hst & _).
  specialize (IH (S k) h1). destruct (checkAll now conds (S k) rs h1) as [rs2 h2].
  cbn [fst List.filter] in *.
  destruct (l_is_active r1) eqn:A1, (l_is_active r) eqn:A; cbn [length]; try lia.
  unfold l_is_active in A1, A.
  destruct Hst as [H|[H1 H2]]; [rewrite H in A1; congruence|rewrite H1 in A; discriminate A].
Qed.

(** X16 *)
(** X16: in the first engine, ticks, fulfilment polls and writes of
    [city.happiness] in any order never make more than
    [maxActiveRequests = 3] requests active. *)
Theorem legacy_active_at_most_three (s : State) :
  reachable s -> (length (getActiveRequests s) <= maxActiveRequests)%nat.
Proof.
  induction 1 as [h|snap pick now id s _ IH|now conds s _ IH|h s _ IH].
  - cbn. unfold maxActiveRequests. lia.
  - unfold tick. destruct (Nat.leb maxActiveRequests (length (getActiveRequests s))) eqn:E;
      [exact IH|]. apply Nat.leb_gt in E.
    destruct (detectProblems snap) as [|p ps]; [exact IH|].
    unfold getActiveRequests in *. cbn [l_requests]. rewrite List.filter_app, length_app.
    cbn. lia.
  - unfold getActiveRequests, checkFulfillment in *.
    pose proof (checkAll_active_le now conds (l_requests s) 0 (l_happiness s)) as H.
    destruct (checkAll now conds 0 (l_requests s) (l_happiness s)) as [rs h].
    cbn in *. lia.
  - exact IH.
Qed.

Lemma checkOne_happiness (now : Z) (c : option bool) (r : Request) (h : option Q) :
  let '(r1, h1) := checkOne now c r h in
  (l_is_fulfilled r1 = l_is_fulfilled r /\ h1 = h) \/
  (l_is_fulfilled r = false /\ l_is_fulfilled r1 = true /\
   h1 = Some (Math_min 100 (default (50#1) h + QZ reward))).
Proof.
  unfold checkOne, l_is_active. destruct r as [id ty at0 st]. cbn [l_status].
  destruct st; cbn [negb].
  - destruct c as [[|]|]; cbv beta iota;
      cbn [l_createdAt setStatus l_status];
      destruct (now - at0 >? expiryMs); cbn [andb]; cbv beta iota;
      unfold l_is_fulfilled; cbn [l_status setStatus];
      first [left; split; reflexivity | right; split; [reflexivity|split; reflexivity]].
  - left; split; reflexivity.
  - left; split; reflexivity.
Qed.

Lemma Qmin_absorb (a b : Q) : (0 <= b -> Qmin 100 (Qmin 100 a + b) == Qmin 100 (a + b))%Q.
Proof.
  intros Hb.
  destruct (Q.min_spec 100 (Qmin 100 a + b)) as [[H5 H6]|[H5 H6]]; rewrite H6;
  destruct (Q.min_spec 100 (a+b)) as [[H3 H4]|[H3 H4]]; rewrite H4;
  destruct (Q.min_spec 100 a) as [[H1 H2]|[H1 H2]]; rewrite H2 in *; lra.
Qed.

Lemma checkAll_happiness (now : Z) (conds : nat -> option bool) (rs : list Request) :
  forall k h,
  let '(rs', h') := checkAll now conds k rs h in
  let d := newlyFulfilled rs rs' in
  (d = 0%nat -> h' = h) /\
  ((0 < d)%nat -> exists v, h' = Some v /\
     (v == Qmin 100 (default (50#1) h + QZ (reward * Z.of_nat d)))%Q).
Proof.
  induction rs as [|r rs IH]; intros k h.
  - cbn. split; [reflexivity|intros H; lia].
  - cbn [checkAll]. pose proof (checkOne_happiness now (conds k) r h) as Hc.
    destruct (checkOne now (conds k) r h) as [r1 h1].
    specialize (IH (S k) h1). destruct (checkAll now conds (S k) rs h1) as [rs2 h2].
    destruct IH as (H0 & Hpos). cbn [newlyFulfilled].
    set (a := newlyFulfilled rs rs2) in *.
    destruct Hc as [[Hf ->]|(Hf & Hf1 & ->)].
    + rewrite Hf. destruct (l_is_fulfilled r); cbn [negb andb Nat.add];
        split; [exact H0|exact Hpos|exact H0|exact Hpos].
    + rewrite Hf, Hf1. cbn [negb andb]. split; [intros; lia|intros _].
      destruct (Nat.eq_dec a 0%nat) as [Ea|Ena].
      * exists (Math_min 100 (default (50#1) h + QZ reward)).
        split; [apply H0; exact Ea|].
        rewrite Ea. rewrite Math_min_Qmin. reflexivity.
      * destruct (Hpos ltac:(lia)) as (v & Hv & Heq). exists v. split; [exact Hv|].
        rewrite Heq. cbn [default]. rewrite Math_min_Qmin.
        replace (Z.of_nat (1 + a)) with (1 + Z.of_nat a) by lia.
        unfold QZ. rewrite Z.mul_add_distr_l, Z.mul_1_r, inject_Z_plus.
        assert (Hnn : (0 <= inject_Z (reward * Z.of_nat a))%Q).
        { unfold Qle, reward; cbn. lia. }
        unfold id. rewrite Qmin_absorb by exact Hnn.
        rewrite Qplus_assoc. reflexivity.
Qed.

Lemma checkOne_not_active (now : Z) (c : option bool) (r : Request) (h : option Q) :
  l_is_active r = false -> fst (checkOne now c r h) = r.
Proof. intros H. unfold checkOne. rewrite H. reflexivity. Qed.

(** X17 *)
(** X17: [checkFulfillment] never un-fulfils a request: a request that was
    fulfilled is left as it is, at the same position.  When the poll
    fulfils no request, [city.happiness] is unchanged; when it fulfils [k]
    requests (requests not fulfilled before and fulfilled after), it sets
    [city.happiness] to [min(100, (happiness ?? 50) + 5 k)]. *)
Theorem checkFulfillment_happiness (now : Z) (conds : nat -> option bool) (s : State) :
  let s' := checkFulfillment now conds s in
  let k := newlyFulfilled (l_requests s) (l_requests s') in
  (forall i r, l_requests s !! i = Some r -> l_is_fulfilled r = true ->
     l_requests s' !! i = Some r) /\
  (k = 0%nat -> l_happiness s' = l_happiness s) /\
  ((0 < k)%nat -> exists v, l_happiness s' = Some v /\
     (v == Qmin 100 (default (50#1) (l_happiness s) + QZ (reward * Z.of_nat k)))%Q).
Proof.
  cbv zeta. unfold checkFulfillment.
  pose proof (checkAll_happiness now conds (l_requests s) 0 (l_happiness s)) as H.
  pose proof (checkAll_lookup now conds (l_requests s) 0 (l_happiness s)) as Hlk.
  destruct (checkAll now conds 0 (l_requests s) (l_happiness s)) as [rs h].
  cbn [fst l_requests l_happiness] in *. destruct H as (H0 & Hpos).
  split; [|split; [exact H0|exact Hpos]].
  intros i r Hi Hf. rewrite Hlk, Hi. cbn [option_map]. f_equal.
  apply checkOne_not_active. unfold l_is_fulfilled, l_is_active in *.
  destruct (l_status r); first [reflexivity|discriminate Hf].
Qed.

End LegacyExtra.


(* ================================================================== *)
(** * Witnesses: the theorems applied to concrete inputs *)
(* ================================================================== *)

Module Witnesses.
Import RequestEngine RequestEngineFacts Disaster DisasterFacts Speech SpeechFacts.

Lemma example_state1_reachable : RequestEngine.reachable example_state1.
Proof.
  apply (RequestEngine.reach_step (initState false None)).
  - apply RequestEngine.reach_init.
  - apply RequestEngine.step_tick.
Qed.

Lemma at_most_one_active_request_witness :
  (length (getActiveRequests example_state1) <= 1)%nat /\
  (phase example_state1 <> request_active -> markResolved example_state1 = example_state1).
Proof. apply at_most_one_active_request. exact example_state1_reachable. Defined.

Lemma checkRequestStatus_resolution_witness :
  phase example_state1 = request_active /\
  resolved (checkRequestStatus example_env1 example_state1) = true /\
  ideal_of housing example_snap1 = false.
Proof.
  destruct (checkRequestStatus_resolution example_env1 example_state1
              (createRequest housing example_env0) example_snap0
              ltac:(vm_compute; reflexivity) ltac:(vm_compute; reflexivity)
              ltac:(vm_compute; reflexivity)) as (_ & _ & H).
  destruct (H eq_refl eq_refl eq_refl eq_refl eq_refl) as (_ & Hr & Hi & _).
  split; [vm_compute; reflexivity|split; [exact Hr|exact Hi]].
Defined.

Lemma happiness_delta_cases_witness :
  computeHappinessDelta (createRequest housing example_env0) example_snap0 example_snap1 = 10 /\
  (applyHappiness (Some (95#1)) 10 == 100)%Q.
Proof.
  pose proof (happiness_delta_cases (createRequest housing example_env0)
                example_snap0 example_snap1 (Some (95#1))) as (H1 & _ & _ & _).
  assert (Hd : computeHappinessDelta (createRequest housing example_env0)
                 example_snap0 example_snap1 = 10).
  { apply H1. simpl. lia. }
  split; [exact Hd|vm_compute; reflexivity].
Defined.

Lemma cooldown_on_idle_entry_witness :
  (8000 <= nextCooldownMs (transitionToIdle example_env0 (initState false None)) <= 40000)%Q.
Proof.
  apply (cooldown_on_idle_entry example_env0 (initState false None)).
  split; unfold Qle, Qlt; simpl; lia.
Defined.

Lemma detectProblems_thresholds_witness :
  In housing (detectProblems example_snap0) /\ ~ In jobs (detectProblems example_snap0).
Proof.
  destruct (detectProblems_thresholds example_snap0
              ltac:(unfold snapshot_nonneg; simpl; lia)) as (Hh & Hj & _).
  split.
  - apply Hh. split; [simpl; lia|unfold Qlt; simpl; lia].
  - rewrite Hj. simpl. lia.
Defined.

Lemma no_trigger_below_min_buildings_witness :
  simulate empty_city example_service example_draws = (empty_city, example_service, []).
Proof.
  apply no_trigger_below_min_buildings; [reflexivity|vm_compute; reflexivity].
Defined.

Lemma triggered_reachable : sys_reachable (triggered_city, triggered_service).
Proof.
  apply (sys_next (example_city, example_service)); [apply sys_init|].
  apply (sys_simulate _ _ example_draws _ _
           (snd (simulate example_city example_service example_draws))).
  - split; [vm_compute; lia|].
    split; [unfold minAffectedSize, maxAffectedSize; simpl; lia|].
    split; [unfold minAffectedSize, maxAffectedSize; simpl; lia|].
    intros x y. unfold minRecoveryTicks, maxRecoveryTicks. simpl. lia.
  - reflexivity.
Qed.

Lemma active_hazard_has_affected_tiles_witness :
  affectedTiles triggered_disaster <> [].
Proof.
  apply (active_hazard_has_affected_tiles triggered_city triggered_service
           triggered_reachable triggered_disaster).
  vm_compute. reflexivity.
Defined.

Lemma recovered_reachable : sys_reachable (recovered_city, triggered_service).
Proof.
  apply (sys_next (triggered_city, triggered_service)); [exact triggered_reachable|].
  unfold recovered_city. apply sys_recover.
Qed.

Lemma active_recovery_completes_at_tick_60_witness :
  damaged (tiles (fst (ticks 60 example_draws recovered_city triggered_service)) 1 0) = false.
Proof.
  destruct (DisasterRecovery.active_recovery_completes_at_tick_60 recovered_city
              triggered_service example_draws triggered_disaster (mkAffected 1 0 300)
              recovered_reachable
              ltac:(vm_compute; reflexivity)
              ltac:(vm_compute; left; reflexivity)
              ltac:(reflexivity)
              ltac:(vm_compute; reflexivity)
              ltac:(vm_compute; reflexivity)) as (_ & _ & H & _).
  exact H.
Defined.

End Witnesses.


(* ================================================================== *)
(** * Witnesses of the further properties *)
(* ================================================================== *)

Module SpeechExtraWitnesses.
Import Speech SpeechExtra.

Lemma waiters_never_lost_or_repeated_witness :
  Permutation (waiters (run example_events) ++ resolvedWaiters (run example_events)) [1; 2]%nat.
Proof.
  exact (proj1 (waiters_never_lost_or_repeated example_events ltac:(vm_compute; reflexivity))).
Defined.

Lemma waiters_resolved_in_call_order_witness :
  resolvedWaiters (run example_events) ++ waiters (run example_events) = [1; 2]%nat.
Proof.
  exact (waiters_resolved_in_call_order example_events ltac:(vm_compute; reflexivity)).
Defined.

Lemma silence_leaves_no_waiter_witness : waiters (run example_events) = [].
Proof.
  apply (silence_leaves_no_waiter example_events); vm_compute; reflexivity.
Defined.

End SpeechExtraWitnesses.

Module DisasterExtraWitnesses.
Import Disaster DisasterExtra DisasterRecovery.

Lemma trigger_damages_affected_tiles_witness :
  lastDisasterTick (snd (fst (triggerDisaster example_city example_service 2 1 2 2
                                (fun _ _ => 0)))) = Some 100.
Proof.
  pose proof (trigger_damages_affected_tiles example_city example_service 2 1 2 2 (fun _ _ => 0)
                ltac:(intros; unfold maxRecoveryTicks, minRecoveryTicks; lia)) as H.
  destruct (triggerDisaster example_city example_service 2 1 2 2 (fun _ _ => 0))
    as [[c' svc'] ns].
  exact (proj1 H).
Defined.

Lemma active_tick_only_recovers_witness :
  lastDisasterTick (snd (fst (simulate recovery_city recovery_service example_draws))) =
  lastDisasterTick recovery_service.
Proof.
  pose proof (active_tick_only_recovers recovery_city recovery_service example_draws
                (mkDisaster 1 1 [mkAffected 1 1 300]) ltac:(reflexivity)) as H.
  destruct (simulate recovery_city recovery_service example_draws) as [[c' svc'] ns].
  exact (proj1 H).
Defined.

Lemma trigger_only_when_guards_pass_witness :
  minBuildingsForDisaster <= buildingCount example_city.
Proof.
  pose proof (trigger_only_when_guards_pass example_city example_service example_draws
                ltac:(reflexivity)) as H.
  destruct (simulate example_city example_service example_draws) as [[c' svc'] ns] eqn:E.
  assert (Hs : svc' = snd (fst (simulate example_city example_service example_draws)))
    by (rewrite E; reflexivity).
  destruct H as [_ H]. apply H. rewrite Hs. vm_compute. discriminate.
Defined.

Lemma recovery_takes_nominal_ticks_witness :
  exists n, (300 <= n <= 301)%nat /\
    damaged (tiles (fst (ticks n example_draws triggered_city triggered_service)) 1 1) = false.
Proof.
  destruct (recovery_takes_nominal_ticks triggered_city triggered_service example_draws
              triggered_disaster (mkAffected 1 1 300) Witnesses.triggered_reachable
              ltac:(vm_compute; reflexivity)
              ltac:(vm_compute; right; left; reflexivity)
              ltac:(vm_compute; reflexivity)) as (n & Hn & _ & Hdmg & _).
  exists n. split; [|exact Hdmg]. revert Hn. vm_compute. intros Hn. exact Hn.
Defined.

End DisasterExtraWitnesses.

Module RequestEngineExtraWitnesses.
Import RequestEngine RequestEngineExtra.

Lemma expired_reachable : reachable (expireRequest example_env1 example_state1).
Proof.
  apply (reach_step example_state1); [exact Witnesses.example_state1_reachable|].
  apply step_expire.
Qed.

Lemma cooldown_bounded_and_respected_witness :
  onCityChanged (mkEnv 35000 example_snap1 0 0 0 0) (expireRequest example_env1 example_state1) =
  expireRequest example_env1 example_state1.
Proof.
  apply (proj2 (cooldown_bounded_and_respected (expireRequest example_env1 example_state1)
                  (mkEnv 35000 example_snap1 0 0 0 0) expired_reachable));
    vm_compute; reflexivity.
Defined.

Lemma request_log_append_only_witness :
  exists r', requests (markResolved example_state1) !! 0%nat = Some r' /\ req_type r' = housing.
Proof.
  destruct (request_log_append_only example_state1 (markResolved example_state1)
              Witnesses.example_state1_reachable (step_markResolved example_state1)) as [_ H].
  destruct (H 0%nat (createRequest housing example_env0) ltac:(vm_compute; reflexivity))
    as (r' & H1 & _ & _ & H4 & _).
  exists r'. split; [exact H1|exact H4].
Defined.

Lemma idle_tick_requests_detected_problem_witness :
  exists r, requests example_state1 = [r] /\ In (req_type r) (detectProblems example_snap0).
Proof.
  destruct (idle_tick_requests_detected_problem example_env0 (initState false None)
              ltac:(split; unfold Qle, Qlt; simpl; lia) ltac:(reflexivity)) as [_ H].
  destruct (H ltac:(intros H'; vm_compute in H'; discriminate H'))
    as (_ & _ & _ & _ & r & Hr & Hin & _).
  exists r. split; [exact Hr|exact Hin].
Defined.

Lemma resolved_request_settles_then_evaluated_witness :
  cityHappiness (onCityChanged example_env1 (onCityChanged example_env1
    (onCityChanged example_env1 (markResolved example_state1)))) =
  Some (applyHappiness None (computeHappinessDelta (createRequest housing example_env0)
                              example_snap0 example_snap1)).
Proof.
  destruct (resolved_request_settles_then_evaluated example_state1 0
              (createRequest housing example_env0) example_snap0
              example_env1 example_env1 example_env1
              ltac:(vm_compute; reflexivity) ltac:(vm_compute; reflexivity)
              ltac:(vm_compute; reflexivity) ltac:(vm_compute; reflexivity))
    as (_ & _ & H & _).
  exact H.
Defined.

End RequestEngineExtraWitnesses.

Module LegacyExtraWitnesses.
Import RequestEngine LegacyRequestEngine LegacyExtra.

Lemma legacy_active_at_most_three_witness :
  (length (LegacyRequestEngine.getActiveRequests (example_tick (mkLState [] None) 0 0)) <= 3)%nat.
Proof.
  apply legacy_active_at_most_three.
  exact (lr_tick example_snap0 0 0 0 _ (lr_init None)).
Defined.

End LegacyExtraWitnesses.
